(** * HAP characteristic: value coercion, request protocol and wire projection

    A shallow embedding of [src/lib/Characteristic.ts] (HAP-NodeJS) and the
    properties of its specification.

    Conventions of the embedding.

    - A JavaScript number is [NaN], a signed infinity, or a finite decimal
      [mant / 10^scale].  Every finite double has such a decimal reading
      (the digits [Number.prototype.toString] prints), the order of doubles
      is the order of their readings, and decimal.js computes on exactly
      these readings.  Arithmetic is exact: binary rounding, overflow to
      infinity, the sign of zero and the 20-digit working precision of
      decimal.js are not represented.
    - A JavaScript string is the list of its UTF-16 code units.
    - A characteristic value is a primitive ([undefined], [null], boolean,
      number, string); array and dictionary payloads are not represented.
    - Throwing is a result [Throw e]; events raised through the emitter are
      collected, in order, in a trace.
    - [getValue], [setValue], [updateValue], [getDefaultValue] and
      [_assignID] have no part in the properties and are left out. *)

From Stdlib Require Import String Ascii ZArith QArith List Bool Lia.
Import ListNotations.
Open Scope Z_scope.

(** ** Numbers *)

Module Num.

Record dec : Set := mkDec { mant : Z; scale : nat }.

Definition pow10 (n : nat) : Z := 10 ^ Z.of_nat n.

(** The rational a decimal denotes. *)
Definition dval (d : dec) : Q := mant d # Z.to_pos (pow10 (scale d)).

Inductive number : Set :=
| NaN
| Inf (negative : bool)
| Fin (d : dec).

Definition of_Z (z : Z) : number := Fin (mkDec z 0).

Definition dcompare (a b : dec) : comparison :=
  (mant a * pow10 (scale b)) ?= (mant b * pow10 (scale a)).

Definition dltb (a b : dec) : bool :=
  match dcompare a b with Lt => true | _ => false end.

Definition deqb (a b : dec) : bool :=
  match dcompare a b with Eq => true | _ => false end.

(** Canonical form: no trailing zero among the fractional digits. *)
Fixpoint strip (m : Z) (s : nat) : dec :=
  match s with
  | O => mkDec m 0
  | S s' => if m mod 10 =? 0 then strip (m / 10) s' else mkDec m s
  end.

Definition canon (d : dec) : dec := strip (mant d) (scale d).

(** [x < y] on numbers: false as soon as one side is [NaN]. *)
Definition ltb (x y : number) : bool :=
  match x, y with
  | NaN, _ | _, NaN => false
  | Inf nx, Inf ny => nx && negb ny
  | Inf nx, Fin _ => nx
  | Fin _, Inf ny => negb ny
  | Fin a, Fin b => dltb a b
  end.

(** [x === y] on numbers. *)
Definition strict_eqb (x y : number) : bool :=
  match x, y with
  | Inf nx, Inf ny => Bool.eqb nx ny
  | Fin a, Fin b => deqb a b
  | _, _ => false
  end.

(** SameValueZero, the comparison of [Array.prototype.includes]. *)
Definition same_value_zero (x y : number) : bool :=
  match x, y with
  | NaN, NaN => true
  | _, _ => strict_eqb x y
  end.

Definition isNaN (x : number) : bool :=
  match x with NaN => true | _ => false end.

(** Truthiness of a number: [0] and [NaN] are falsy. *)
Definition truthy (x : number) : bool :=
  match x with
  | NaN => false
  | Inf _ => true
  | Fin d => negb (mant d =? 0)
  end.

Definition is_integer (d : dec) : bool := mant d mod pow10 (scale d) =? 0.

(** [Math.floor(x) === x]. *)
Definition floor_is_self (x : number) : bool :=
  match x with
  | NaN => false
  | Inf _ => true
  | Fin d => is_integer d
  end.

(** Decimal digits of a natural number, least significant first; [fuel]
    bounds their count. *)
Fixpoint digits_lsf (fuel : nat) (m : Z) : list Z :=
  match fuel with
  | O => []
  | S f => if m <? 10 then [m] else m mod 10 :: digits_lsf f (m / 10)
  end.

(** The digits, most significant first; a number has no more decimal
    digits than binary ones. *)
Definition digits_of (m : Z) : list Z :=
  rev (digits_lsf (S (Z.to_nat (Z.log2 m))) m).

Fixpoint drop_zeros (l : list Z) : list Z :=
  match l with
  | 0 :: r => drop_zeros r
  | _ => l
  end.

(** The digit string [s] of ECMAScript's Number::toString (the shortest one,
    without trailing zeros) and the exponent [n], with the value being
    [0.s * 10^n]; only meaningful for a non-zero decimal. *)
Definition sig_digits (d : dec) : list Z :=
  rev (drop_zeros (rev (digits_of (Z.abs (mant (canon d)))))).

Definition point_pos (d : dec) : Z :=
  Z.of_nat (length (digits_of (Z.abs (mant (canon d)))))
  - Z.of_nat (scale (canon d)).

(** Number::toString switches to exponent notation outside
    [1e-6 <= |x| < 1e21]. *)
Definition exponent_notation (d : dec) : bool :=
  negb (mant d =? 0) && ((21 <? point_pos d) || (point_pos d <=? -6)).

(** Rounding of [m / k] to the nearest integer, ties away from zero
    (decimal.js ROUND_HALF_UP, the default of [toFixed]). *)
Definition div_half_away (m k : Z) : Z :=
  Z.sgn m * ((2 * Z.abs m + k) / (2 * k)).

(** Rounding of [m / k] to the nearest integer, ties towards +infinity
    ([Math.round]). *)
Definition div_half_up (m k : Z) : Z := (2 * m + k) / (2 * k).

(** [parseFloat(d.toFixed(dp))] for a decimal.js value [d]: the value
    rounded to [dp] fractional digits. *)
Definition toFixed (d : dec) (dp : nat) : dec :=
  if (scale d <=? dp)%nat then d
  else mkDec (div_half_away (mant d) (pow10 (scale d - dp))) dp.

(** Both operands written at the larger of the two scales. *)
Definition align (a b : dec) : Z * Z * nat :=
  let e := Nat.max (scale a) (scale b) in
  (mant a * pow10 (e - scale a), mant b * pow10 (e - scale b), e).

(** [x.mod(y)] of decimal.js for finite operands, [y] non-zero: the
    remainder of the truncated division, with the sign of [x]. *)
Definition dmod (x y : dec) : dec :=
  let '(mx, my, e) := align x y in mkDec (Z.rem mx my) e.

Definition dminus (x y : dec) : dec :=
  let '(mx, my, e) := align x y in mkDec (mx - my) e.


(** Truncation towards zero. *)
Definition trunc (d : dec) : Z := Z.quot (mant d) (pow10 (scale d)).

End Num.

Export Num.

(** ** Strings *)

Module Str.

(** UTF-16 code units. *)
Definition JSString : Set := list Z.

(** An ASCII literal as a JavaScript string. *)
Definition lit (s : string) : JSString :=
  map (fun a => Z.of_nat (nat_of_ascii a)) (list_ascii_of_string s).

Fixpoint str_eqb (a b : JSString) : bool :=
  match a, b with
  | [], [] => true
  | x :: a', y :: b' => (x =? y) && str_eqb a' b'
  | _, _ => false
  end.

Fixpoint starts_with (p s : JSString) : bool :=
  match p, s with
  | [], _ => true
  | x :: p', y :: s' => (x =? y) && starts_with p' s'
  | _ :: _, [] => false
  end.

Definition is_digit (c : Z) : bool := (48 <=? c) && (c <=? 57).

(** WhiteSpace and LineTerminator code units. *)
Definition is_ws (c : Z) : bool :=
  ((9 <=? c) && (c <=? 13)) || (c =? 32) || (c =? 160) || (c =? 5760)
  || ((8192 <=? c) && (c <=? 8202)) || (c =? 8232) || (c =? 8233)
  || (c =? 8239) || (c =? 8287) || (c =? 12288) || (c =? 65279).

Fixpoint skip_ws (s : JSString) : JSString :=
  match s with
  | c :: r => if is_ws c then skip_ws r else s
  | [] => []
  end.

Definition trim (s : JSString) : JSString :=
  rev (skip_ws (rev (skip_ws s))).

(** The longest prefix of decimal digits (as digit values) and the rest. *)
Fixpoint span_digits (s : JSString) : list Z * JSString :=
  match s with
  | c :: r =>
      if is_digit c
      then let '(ds, rest) := span_digits r in (c - 48 :: ds, rest)
      else ([], s)
  | [] => ([], [])
  end.

Definition digits_val (ds : list Z) : Z :=
  fold_left (fun acc d => acc * 10 + d) ds 0.

(** An optional sign: [true] for a minus. *)
Definition take_sign (s : JSString) : bool * JSString :=
  match s with
  | 43 :: r => (false, r)
  | 45 :: r => (true, r)
  | _ => (false, s)
  end.

Definition signed (neg : bool) (z : Z) : Z := if neg then - z else z.

(** [Number.parseInt(s, 10)]. *)
Definition parseInt_str (s : JSString) : number :=
  let '(neg, r) := take_sign (skip_ws s) in
  match span_digits r with
  | ([], _) => NaN
  | (ds, _) => of_Z (signed neg (digits_val ds))
  end.

(** The exponent part [e[+-]ddd], when present and complete. *)
Definition take_exponent (s : JSString) : Z * JSString :=
  match s with
  | c :: r =>
      if (c =? 101) || (c =? 69)
      then let '(neg, r') := take_sign r in
           match span_digits r' with
           | ([], _) => (0, s)
           | (ds, rest) => (signed neg (digits_val ds), rest)
           end
      else (0, s)
  | [] => (0, [])
  end.

(** An unsigned decimal literal [ddd.ddd e ddd] at the head of [s]: its
    value and the rest, or [None] when no digit is there. *)
Definition take_decimal (s : JSString) : option (dec * JSString) :=
  let '(ip, r1) := span_digits s in
  let '(fp, r2) :=
    match r1 with
    | 46 :: r => span_digits r
    | _ => ([], r1)
    end in
  match ip, fp with
  | [], [] => None
  | _, _ =>
      let '(e, r3) := take_exponent r2 in
      let m := digits_val (ip ++ fp) in
      let d := if 0 <=? e
               then mkDec (m * 10 ^ e) (length fp)
               else mkDec m (length fp + Z.to_nat (- e)) in
      Some (canon d, r3)
  end.

Definition signed_dec (neg : bool) (d : dec) : dec :=
  mkDec (signed neg (mant d)) (scale d).

(** [parseFloat(s)]. *)
Definition parseFloat_str (s : JSString) : number :=
  let '(neg, r) := take_sign (skip_ws s) in
  if starts_with (lit "Infinity") r then Inf neg
  else match take_decimal r with
       | Some (d, _) => Fin (signed_dec neg d)
       | None => NaN
       end.

Definition hex_val (c : Z) : option Z :=
  if is_digit c then Some (c - 48)
  else if (97 <=? c) && (c <=? 102) then Some (c - 87)
  else if (65 <=? c) && (c <=? 70) then Some (c - 55)
  else None.

(** Digits in the given radix, all of the string, at least one. *)
Fixpoint radix_val (radix : Z) (s : JSString) (acc : Z) : option Z :=
  match s with
  | [] => Some acc
  | c :: r =>
      match hex_val c with
      | Some d => if d <? radix then radix_val radix r (acc * radix + d)
                  else None
      | None => None
      end
  end.

Definition radix_literal (radix : Z) (s : JSString) : number :=
  match s with
  | [] => NaN
  | _ => match radix_val radix s 0 with
         | Some z => of_Z z
         | None => NaN
         end
  end.

(** StringToNumber, the conversion [<], [>] and [==] apply to a string
    operand: the whole trimmed string must be a numeric literal. *)
Definition StringToNumber (s : JSString) : number :=
  match trim s with
  | [] => of_Z 0
  | 48 :: c :: r =>
      if (c =? 120) || (c =? 88) then radix_literal 16 r
      else if (c =? 111) || (c =? 79) then radix_literal 8 r
      else if (c =? 98) || (c =? 66) then radix_literal 2 r
      else match take_decimal (48 :: c :: r) with
           | Some (d, []) => Fin d
           | _ => NaN
           end
  | t =>
      let '(neg, r) := take_sign t in
      if str_eqb r (lit "Infinity") then Inf neg
      else match take_decimal r with
           | Some (d, []) => Fin (signed_dec neg d)
           | _ => NaN
           end
  end.

Definition digit_chars (ds : list Z) : JSString := map (fun d => d + 48) ds.

(** Number::toString. *)
Definition Number_toString (x : number) : JSString :=
  match x with
  | NaN => lit "NaN"
  | Inf neg => (if neg then lit "-" else []) ++ lit "Infinity"
  | Fin d =>
      if mant d =? 0 then lit "0"
      else
        let sd := sig_digits d in
        let k := length sd in
        let n := point_pos d in
        let body :=
          if (Z.of_nat k <=? n) && (n <=? 21)
          then digit_chars sd ++ repeat 48 (Z.to_nat n - k)
          else if (0 <? n) && (n <=? 21)
          then digit_chars (firstn (Z.to_nat n) sd) ++ lit "."
               ++ digit_chars (skipn (Z.to_nat n) sd)
          else if (-6 <? n) && (n <=? 0)
          then lit "0." ++ repeat 48 (Z.to_nat (- n)) ++ digit_chars sd
          else
            let e := n - 1 in
            let tail := (if e <? 0 then lit "e-" else lit "e+")
                        ++ digit_chars (digits_of (Z.abs e)) in
            match sd with
            | [c] => digit_chars [c] ++ tail
            | c :: r => digit_chars [c] ++ lit "." ++ digit_chars r ++ tail
            | [] => tail
            end in
        (if mant d <? 0 then lit "-" else []) ++ body
  end.

(** [s.split(".")]: the pieces between the dots. *)
Fixpoint split_dot (s : JSString) (cur : JSString) : list JSString :=
  match s with
  | [] => [rev cur]
  | c :: r => if c =? 46 then rev cur :: split_dot r []
              else split_dot r (c :: cur)
  end.

End Str.

Export Str.

(** ** UTF-8, as [Buffer.from(s, 'utf8')] and [buf.toString('utf8', 0, n)] *)

Module Utf8.

Definition is_high_surrogate (c : Z) : bool := (0xD800 <=? c) && (c <=? 0xDBFF).
Definition is_low_surrogate (c : Z) : bool := (0xDC00 <=? c) && (c <=? 0xDFFF).

Definition replacement : list Z := [0xEF; 0xBF; 0xBD].

Definition encode3 (c : Z) : list Z :=
  [Z.lor 0xE0 (Z.shiftr c 12);
   Z.lor 0x80 (Z.land (Z.shiftr c 6) 0x3F);
   Z.lor 0x80 (Z.land c 0x3F)].

Definition encode4 (cp : Z) : list Z :=
  [Z.lor 0xF0 (Z.shiftr cp 18);
   Z.lor 0x80 (Z.land (Z.shiftr cp 12) 0x3F);
   Z.lor 0x80 (Z.land (Z.shiftr cp 6) 0x3F);
   Z.lor 0x80 (Z.land cp 0x3F)].

(** The bytes of a string; a lone surrogate is written as U+FFFD. *)
Fixpoint encode (s : JSString) : list Z :=
  match s with
  | [] => []
  | c :: r =>
      if c <? 0x80 then c :: encode r
      else if c <? 0x800
      then Z.lor 0xC0 (Z.shiftr c 6) :: Z.lor 0x80 (Z.land c 0x3F) :: encode r
      else if is_high_surrogate c
      then match r with
           | d :: r' =>
               if is_low_surrogate d
               then encode4 (0x10000 + Z.shiftl (c - 0xD800) 10 + (d - 0xDC00))
                    ++ encode r'
               else replacement ++ encode r
           | [] => replacement
           end
      else if is_low_surrogate c then replacement ++ encode r
      else encode3 c ++ encode r
  end.

Definition byteLength (s : JSString) : Z := Z.of_nat (length (encode s)).

(** The code units of a decoded code point. *)
Definition units_of (cp : Z) : JSString :=
  if cp <? 0x10000 then [cp]
  else [0xD800 + Z.shiftr (cp - 0x10000) 10;
        0xDC00 + Z.land (cp - 0x10000) 0x3FF].

(** A byte read when no sequence is open: the units it yields at once, the
    number of continuation bytes it announces and the bits it carries. *)
Definition lead (b : Z) : JSString * nat * Z :=
  if b <? 0x80 then ([b], O, 0)
  else if (0xC2 <=? b) && (b <=? 0xDF) then ([], 1%nat, Z.land b 0x1F)
  else if (0xE0 <=? b) && (b <=? 0xEF) then ([], 2%nat, Z.land b 0x0F)
  else if (0xF0 <=? b) && (b <=? 0xF4) then ([], 3%nat, Z.land b 0x07)
  else ([0xFFFD], O, 0).

Definition is_continuation (b : Z) : bool := (0x80 <=? b) && (b <=? 0xBF).

(** Decoding with replacement: a sequence cut short, by the end of the
    input or by a byte that does not continue it, yields one U+FFFD.  The
    ranges of second bytes are not checked; they only matter for input that
    is not the prefix of an encoding. *)
Fixpoint decode_from (need : nat) (cp : Z) (bs : list Z) : JSString :=
  match bs with
  | [] => match need with O => [] | S _ => [0xFFFD] end
  | b :: r =>
      match need with
      | O => let '(out, n, acc) := lead b in out ++ decode_from n acc r
      | S n =>
          if is_continuation b
          then let cp' := Z.lor (Z.shiftl cp 6) (Z.land b 0x3F) in
               match n with
               | O => units_of cp' ++ decode_from O 0 r
               | S _ => decode_from n cp' r
               end
          else let '(out, n', acc) := lead b in
               0xFFFD :: out ++ decode_from n' acc r
      end
  end.

Definition decode (bs : list Z) : JSString := decode_from O 0 bs.

End Utf8.

(** ** Values *)

Inductive Value : Set :=
| VUndefined
| VNull
| VBool (b : bool)
| VNum (n : number)
| VStr (s : JSString).

Inductive JSError : Set :=
| TypeError
| Error (message : JSString).

Inductive result (A : Type) : Type :=
| Ok (a : A)
| Throw (e : JSError).

Arguments Ok {A} a.
Arguments Throw {A} e.

Definition bind {A B} (r : result A) (k : A -> result B) : result B :=
  match r with
  | Ok a => k a
  | Throw e => Throw e
  end.

Notation "x <- r ;; k" := (bind r (fun x => k))
  (at level 61, r at next level, right associativity).

Definition ToString (v : Value) : JSString :=
  match v with
  | VUndefined => lit "undefined"
  | VNull => lit "null"
  | VBool true => lit "true"
  | VBool false => lit "false"
  | VNum n => Number_toString n
  | VStr s => s
  end.

Definition ToNumber (v : Value) : number :=
  match v with
  | VUndefined => NaN
  | VNull => of_Z 0
  | VBool true => of_Z 1
  | VBool false => of_Z 0
  | VNum n => n
  | VStr s => StringToNumber s
  end.

(** ToBoolean. *)
Definition truthy_value (v : Value) : bool :=
  match v with
  | VUndefined | VNull => false
  | VBool b => b
  | VNum n => Num.truthy n
  | VStr s => match s with [] => false | _ => true end
  end.

(** [a === b]. *)
Definition strict_equal (a b : Value) : bool :=
  match a, b with
  | VUndefined, VUndefined => true
  | VNull, VNull => true
  | VBool x, VBool y => Bool.eqb x y
  | VNum x, VNum y => Num.strict_eqb x y
  | VStr x, VStr y => str_eqb x y
  | _, _ => false
  end.

(** [v == true]: the boolean operand becomes the number 1, [null] and
    [undefined] equal nothing else, the other operand is converted to a
    number. *)
Definition loose_equal_true (v : Value) : bool :=
  match v with
  | VUndefined | VNull => false
  | _ => Num.strict_eqb (ToNumber v) (of_Z 1)
  end.

(** [v == undefined], which [null] satisfies as well. *)
Definition is_nullish (v : Value) : bool :=
  match v with
  | VUndefined | VNull => true
  | _ => false
  end.

(** [v < b] and [v > b] for a number or [undefined] on the right. *)
Definition value_lt (v : Value) (b : option number) : bool :=
  match b with
  | Some n => Num.ltb (ToNumber v) n
  | None => false
  end.

Definition value_gt (v : Value) (b : option number) : bool :=
  match b with
  | Some n => Num.ltb n (ToNumber v)
  | None => false
  end.

(** [parseInt(String(x), 10)] for a number [x]: the digits before the
    point, which in exponent notation is the leading digit alone. *)
Definition parseInt_num (x : number) : number :=
  match x with
  | Fin d =>
      if exponent_notation d
      then of_Z (Z.sgn (mant d) * hd 0 (sig_digits d))
      else of_Z (Num.trunc d)
  | _ => NaN
  end.

(** [parseInt(v, 10)]. *)
Definition parseInt (v : Value) : number :=
  match v with
  | VNum x => parseInt_num x
  | _ => parseInt_str (ToString v)
  end.

(** [parseFloat(v)]; a number prints to a string that reads back as
    itself. *)
Definition parseFloat (v : Value) : number :=
  match v with
  | VNum (Inf neg) => Inf neg
  | VNum (Fin d) => Fin d
  | VNum NaN => NaN
  | _ => parseFloat_str (ToString v)
  end.

(** ** The characteristic *)

Inductive Formats : Set :=
| BOOL | INT | FLOAT | STRING | UINT8 | UINT16 | UINT32 | UINT64
| DATA | TLV8 | ARRAY | DICTIONARY.

Inductive Units : Set :=
| CELSIUS | PERCENTAGE | ARC_DEGREE | LUX | SECONDS.

(** The permission tokens; the deprecated [READ] and [WRITE] are the same
    tokens as [PAIRED_READ] and [PAIRED_WRITE], [EVENTS] the same as
    [NOTIFY]. *)
Inductive Perms : Set :=
| PAIRED_READ | PAIRED_WRITE | NOTIFY | ADDITIONAL_AUTHORIZATION
| TIMED_WRITE | HIDDEN | WRITE_RESPONSE.

Inductive Access : Set :=
| ACCESS_READ | ACCESS_WRITE | ACCESS_NOTIFY.

Definition Perms_eqb (a b : Perms) : bool :=
  match a, b with
  | PAIRED_READ, PAIRED_READ | PAIRED_WRITE, PAIRED_WRITE
  | NOTIFY, NOTIFY | ADDITIONAL_AUTHORIZATION, ADDITIONAL_AUTHORIZATION
  | TIMED_WRITE, TIMED_WRITE | HIDDEN, HIDDEN
  | WRITE_RESPONSE, WRITE_RESPONSE => true
  | _, _ => false
  end.

(** [perms.includes(p)], and [perms.indexOf(p) == -1] negated. *)
Definition includes (perms : list Perms) (p : Perms) : bool :=
  existsb (Perms_eqb p) perms.

(** An optional numeric property: left out, [null] (as in the constructor's
    default shape) or a number. *)
Inductive optnum : Set :=
| OUndefined
| ONull
| ONum (n : number).

Record CharacteristicProps : Set := mkProps {
  format : option Formats;
  perms : list Perms;
  unit_ : option Units;
  description : option JSString;
  minValue : optnum;
  maxValue : optnum;
  minStep : optnum;
  maxLen : optnum;
  maxDataLen : optnum;
  validValues : option (list number);
  validValueRanges : option (list number);
  adminOnlyAccess : option (list Access)
}.

(** [Partial<CharacteristicProps>]: [None] for a key the object lacks. *)
Record PartialProps : Set := mkPartial {
  p_format : option (option Formats);
  p_perms : option (list Perms);
  p_unit : option (option Units);
  p_description : option (option JSString);
  p_minValue : option optnum;
  p_maxValue : option optnum;
  p_minStep : option optnum;
  p_maxLen : option optnum;
  p_maxDataLen : option optnum;
  p_validValues : option (option (list number));
  p_validValueRanges : option (option (list number));
  p_adminOnlyAccess : option (option (list Access))
}.

(** [{}]. *)
Definition no_props : PartialProps :=
  mkPartial None None None None None None None None None None None None.

(** Modelled from the spec: the [Status] enumeration is declared in
    HAPServer.ts, which is not among the sources.  The status of a fresh
    characteristic is "success", which [handleGetRequest] tells from every
    other status by its falsiness, hence the number 0; the other codes are
    those of the HomeKit Accessory Protocol and no property depends on
    their values. *)
Module Status.
Definition SUCCESS : Z := 0.
Definition INSUFFICIENT_PRIVILEGES : Z := -70401.
Definition SERVICE_COMMUNICATION_FAILURE : Z := -70402.
Definition WRITE_ONLY_CHARACTERISTIC : Z := -70405.
Definition NOT_ALLOWED_IN_CURRENT_STATE : Z := -70412.
End Status.

Record Characteristic : Set := mkCharacteristic {
  displayName : JSString;
  UUID : JSString;
  iid : option number;
  value : Value;
  status : Z;
  eventOnlyCharacteristic : bool;
  props : CharacteristicProps;
  subscriptions : Z;
  (** the emitter's listeners for "get" and for "set" *)
  getListeners : nat;
  setListeners : nat
}.

Definition Context : Set := nat.
Definition Session : Set := nat.

(** What the emitter is asked to raise. *)
Inductive Event : Set :=
| GET (context : Context) (session : Session)
| SET (v : Value) (context : Context) (session : Session)
| CHANGE (oldValue newValue : Value) (context : Context)
| SUBSCRIBE
| UNSUBSCRIBE.

Definition with_props (c : Characteristic) (p : CharacteristicProps)
  : Characteristic :=
  mkCharacteristic (displayName c) (UUID c) (iid c) (value c) (status c)
    (eventOnlyCharacteristic c) p (subscriptions c)
    (getListeners c) (setListeners c).

Definition with_value (c : Characteristic) (v : Value) : Characteristic :=
  mkCharacteristic (displayName c) (UUID c) (iid c) v (status c)
    (eventOnlyCharacteristic c) (props c) (subscriptions c)
    (getListeners c) (setListeners c).

Definition with_status (c : Characteristic) (s : Z) : Characteristic :=
  mkCharacteristic (displayName c) (UUID c) (iid c) (value c) s
    (eventOnlyCharacteristic c) (props c) (subscriptions c)
    (getListeners c) (setListeners c).

Definition with_eventOnly (c : Characteristic) (b : bool) : Characteristic :=
  mkCharacteristic (displayName c) (UUID c) (iid c) (value c) (status c)
    b (props c) (subscriptions c) (getListeners c) (setListeners c).

Definition with_subscriptions (c : Characteristic) (n : Z) : Characteristic :=
  mkCharacteristic (displayName c) (UUID c) (iid c) (value c) (status c)
    (eventOnlyCharacteristic c) (props c) n
    (getListeners c) (setListeners c).

(** *** setProps *)

Definition or_keep {A} (given : option A) (current : A) : A :=
  match given with
  | Some a => a
  | None => current
  end.

(** The loop of [setProps]: every own key of the argument is copied. *)
Definition assign_props (cur : CharacteristicProps) (p : PartialProps)
  : CharacteristicProps :=
  mkProps
    (or_keep (p_format p) (format cur))
    (or_keep (p_perms p) (perms cur))
    (or_keep (p_unit p) (unit_ cur))
    (or_keep (p_description p) (description cur))
    (or_keep (p_minValue p) (minValue cur))
    (or_keep (p_maxValue p) (maxValue cur))
    (or_keep (p_minStep p) (minStep cur))
    (or_keep (p_maxLen p) (maxLen cur))
    (or_keep (p_maxDataLen p) (maxDataLen cur))
    (or_keep (p_validValues p) (validValues cur))
    (or_keep (p_validValueRanges p) (validValueRanges cur))
    (or_keep (p_adminOnlyAccess p) (adminOnlyAccess cur)).

Definition clear_bounds (p : CharacteristicProps) : CharacteristicProps :=
  mkProps (format p) (perms p) (unit_ p) (description p)
    OUndefined OUndefined (minStep p) (maxLen p) (maxDataLen p)
    (validValues p) (validValueRanges p) (adminOnlyAccess p).

Definition setProps_message (name : JSString) : JSString :=
  lit "Error setting CharacteristicsProps for '" ++ name
  ++ lit "': 'minValue' cannot be greater or equal the 'maxValue'!".

(** [setProps(props)].  The characteristic is an object the caller still
    holds when the call throws, so the outcome carries it in both cases. *)
Definition setProps (c : Characteristic) (p : PartialProps)
  : Characteristic * result unit :=
  let ps := assign_props (props c) p in
  match minValue ps, maxValue ps with
  | ONum lo, ONum hi =>
      if Num.ltb hi lo
      then (with_props c (clear_bounds ps),
            Throw (Error (setProps_message (displayName c))))
      else (with_props c ps, Ok tt)
  | _, _ => (with_props c ps, Ok tt)
  end.

(** The shape [props] defaults to in the constructor. *)
Definition default_props : CharacteristicProps :=
  mkProps None [] None None ONull ONull ONull
    OUndefined OUndefined None None None.

(** [new Characteristic(displayName, UUID, props)]; it throws when the
    sanity check of [setProps] does. *)
Definition new_Characteristic (name uuid : JSString)
  (p : option CharacteristicProps) : result Characteristic :=
  let c := mkCharacteristic name uuid None VNull Status.SUCCESS false
             (match p with Some q => q | None => default_props end)
             0 O O in
  match setProps c no_props with
  | (c', Ok _) => Ok c'
  | (_, Throw e) => Throw e
  end.

(** *** subscribe, unsubscribe *)

Definition subscribe (c : Characteristic) : Characteristic * list Event :=
  let emitted := if subscriptions c =? 0 then [SUBSCRIBE] else [] in
  (with_subscriptions c (subscriptions c + 1), emitted).

Definition unsubscribe (c : Characteristic) : Characteristic * list Event :=
  let wasOne := subscriptions c =? 1 in
  let n := subscriptions c - 1 in
  let n := Z.max n 0 in
  (with_subscriptions c n, if wasOne then [UNSUBSCRIBE] else []).

(** *** validateValue *)

(** The locals the format switch of [validateValue] leaves behind. *)
Record Locals : Set := mkLocals {
  isNumericType : bool;
  minValue_resolved : option number;
  maxValue_resolved : option number;
  minStep_resolved : option number
}.

Inductive Switch : Set :=
| Return (v : Value)
| Break (r : Locals).

Definition integer_family (lo hi : Z) : Switch :=
  Break (mkLocals true (Some (of_Z lo)) (Some (of_Z hi)) (Some (of_Z 1))).

(** [s.substring(0, n)]: [n] is truncated and clamped to the string. *)
Definition substring_to (s : JSString) (n : number) : JSString :=
  match n with
  | Fin d => firstn (Z.to_nat (Num.trunc d)) s
  | Inf false => s
  | _ => []
  end.

Definition optnum_ToNumber (p : optnum) : number :=
  match p with
  | OUndefined => NaN
  | ONull => of_Z 0
  | ONum n => n
  end.

(** The string branch.  [newValue || ''] replaces a falsy value. *)
Definition validate_string (c : Characteristic) (newValue : Value) : Value :=
  let myString := if truthy_value newValue then newValue else VStr [] in
  let myString := ToString myString in
  let maxLength :=
    match maxLen (props c) with
    | OUndefined => ONum (of_Z 64)
    | other => other
    end in
  if Num.ltb (optnum_ToNumber maxLength) (of_Z (Z.of_nat (length myString)))
  then VStr (substring_to myString (optnum_ToNumber maxLength))
  else VStr myString.

Definition null_if_undefined (v : Value) : Value :=
  if is_nullish v then VNull else v.

(** The switch over the format.  [18446744073709551615] is the literal of
    the source; no property below depends on the digits of this bound. *)
Definition format_switch (c : Characteristic) (newValue : Value) : Switch :=
  match format (props c) with
  | Some INT => integer_family (-2147483648) 2147483647
  | Some FLOAT => Break (mkLocals true None None None)
  | Some UINT8 => integer_family 0 255
  | Some UINT16 => integer_family 0 65535
  | Some UINT32 => integer_family 0 4294967295
  | Some UINT64 => integer_family 0 18446744073709551615
  | Some BOOL => Return (VBool (loose_equal_true newValue))
  | Some STRING => Return (validate_string c newValue)
  | Some DATA => Return (null_if_undefined newValue)
  | Some TLV8 => Break (mkLocals false (Some (of_Z 0)) (Some (of_Z 0)) None)
  | _ => Return (null_if_undefined newValue)
  end.

(** [(p && !isNaN(p)) && (p !== null)]: the declared number when it passes
    the guard. *)
Definition declared (p : optnum) : option number :=
  match p with
  | ONum n => if Num.truthy n && negb (Num.isNaN n) then Some n else None
  | _ => None
  end.

Definition override (p : optnum) (resolved : option number) : option number :=
  match declared p with
  | Some n => Some n
  | None => resolved
  end.

(** [minStep_resolved.toString().split(".")[1].length || 0]; reading
    [length] of the missing second piece is a TypeError. *)
Definition fraction_length (step : number) : result nat :=
  match nth_error (split_dot (Number_toString step) []) 1 with
  | Some piece => Ok (length piece)
  | None => Throw TypeError
  end.

Definition stepDecimals (step : number) : result nat :=
  if floor_is_self step then Ok O else fraction_length step.

(** decimal.js: [x.mod(y)] and [x.minus(y)]. *)
Definition Decimal_mod (x y : number) : number :=
  match x, y with
  | Fin a, Fin b => if mant b =? 0 then NaN else Fin (dmod a b)
  | Fin a, Inf _ => Fin a
  | _, _ => NaN
  end.

Definition Decimal_minus (x y : number) : number :=
  match x, y with
  | NaN, _ | _, NaN => NaN
  | Inf a, Inf b => if Bool.eqb a b then NaN else Inf a
  | Inf a, Fin _ => Inf a
  | Fin _, Inf b => Inf (negb b)
  | Fin a, Fin b => Fin (dminus a b)
  end.

(** [parseInt(d.toFixed(0))] and [parseFloat(d.toFixed(dp))]. *)
Definition parseInt_toFixed0 (x : number) : number :=
  match x with
  | Fin d => Fin (Num.toFixed d 0)
  | _ => NaN
  end.

Definition parseFloat_toFixed (x : number) (dp : nat) : number :=
  match x with
  | Fin d => Fin (Num.toFixed d dp)
  | other => other
  end.

(** The step block: the largest multiple of the step towards zero, printed
    with the decimals of the step.  Nothing in the guarded region throws in
    this embedding, so its handler has no counterpart. *)
Definition quantize (newValue : Value) (step : number) : result Value :=
  dp <- stepDecimals step ;;
  let decimalVal := parseFloat newValue in
  let decimalDiff := Decimal_mod decimalVal step in
  let decimalVal := Decimal_minus decimalVal decimalDiff in
  Ok (VNum (match dp with
            | O => parseInt_toFixed0 decimalVal
            | S _ => parseFloat_toFixed decimalVal dp
            end)).

(** [validValues.includes(newValue)]. *)
Definition array_includes (l : list number) (v : Value) : bool :=
  match v with
  | VNum x => existsb (Num.same_value_zero x) l
  | _ => false
  end.

Definition clamp_low (v : Value) (lo : option number) : Value :=
  match lo with
  | Some n => if value_lt v lo then VNum n else v
  | None => v
  end.

Definition clamp_high (v : Value) (hi : option number) : Value :=
  match hi with
  | Some n => if value_gt v hi then VNum n else v
  | None => v
  end.

(** The numeric block, entered when [isNumericType] holds. *)
Definition validate_numeric (c : Characteristic) (r : Locals)
  (newValue : Value) : result Value :=
  match newValue with
  | VBool false => Ok (VNum (of_Z 0))
  | VBool true => Ok (VNum (of_Z 1))
  | _ =>
      if Num.isNaN (parseInt newValue) then Ok (value c)
      else
        let maxValue_resolved := override (maxValue (props c)) (maxValue_resolved r) in
        let minValue_resolved := override (minValue (props c)) (minValue_resolved r) in
        let minStep_resolved := override (minStep (props c)) (minStep_resolved r) in
        let newValue := clamp_low newValue minValue_resolved in
        let newValue := clamp_high newValue maxValue_resolved in
        newValue <- match minStep_resolved with
                    | Some step => quantize newValue step
                    | None => Ok newValue
                    end ;;
        let rejected :=
          match validValues (props c) with
          | Some l => negb (array_includes l newValue)
          | None => false
          end in
        if rejected then Ok (value c)
        else
          let newValue :=
            match validValueRanges (props c) with
            | Some range =>
                let v := clamp_low newValue (nth_error range 0) in
                clamp_high v (nth_error range 1)
            | None => newValue
            end in
          Ok (null_if_undefined newValue)
  end.

Definition validateValue (c : Characteristic) (newValue : Value)
  : result Value :=
  match format_switch c newValue with
  | Return v => Ok v
  | Break r =>
      if isNumericType r then validate_numeric c r newValue
      else Ok (null_if_undefined newValue)
  end.

(** *** handleGetRequest, handleSetRequest *)

Inductive Promise (A : Type) : Type :=
| Resolved (a : A)
| Rejected (status : Z)
| Pending.

Arguments Resolved {A} a.
Arguments Rejected {A} status.
Arguments Pending {A}.

(** [handleGetRequest(session, context)]: what is emitted and the promise
    returned.  With a "get" listener the promise stays pending until the
    listener completes the request; that completion is not part of this
    embedding. *)
Definition handleGetRequest (c : Characteristic) (session : Session)
  (context : Context) : list Event * Promise Value :=
  if negb (includes (perms (props c)) PAIRED_READ)
  then ([], Rejected Status.WRITE_ONLY_CHARACTERISTIC)
  else if eventOnlyCharacteristic c then ([], Resolved VNull)
  else if (getListeners c =? 0)%nat
  then ([], if negb (status c =? 0) then Rejected (status c)
            else Resolved (value c))
  else ([GET context session], Pending).

(** The first argument of a completion callback: nothing, a status code
    or an [Error]. *)
Inductive CallbackStatus : Set :=
| NoStatus
| StatusCode (code : Z)
| StatusError (message : JSString).

(** [/^-?\d+$/.test(s)]. *)
Definition numberPattern (s : JSString) : bool :=
  let '(ds, rest) :=
    span_digits (match s with 45 :: r => r | _ => s end) in
  match ds, rest with
  | _ :: _, [] => true
  | _, _ => false
  end.

Definition extractHAPStatusFromError (message : JSString) : Z :=
  let errorValue := Status.SERVICE_COMMUNICATION_FAILURE in
  if numberPattern message
  then match parseInt_str message with
       | Fin d =>
           let value := mant d in
           if (Status.INSUFFICIENT_PRIVILEGES <=? value)
              && (value <=? Status.NOT_ALLOWED_IN_CURRENT_STATE)
           then value else errorValue
       | _ => errorValue
       end
  else errorValue.

(** What the completion callback of a "set" request has captured. *)
Record SetRequest : Set := mkSetRequest {
  captured_oldValue : Value;
  captured_value : Value;
  captured_context : Context
}.

Definition change_due (c : Characteristic) (oldValue v : Value) : bool :=
  eventOnlyCharacteristic c || negb (strict_equal oldValue v).

(** The completion callback of a "set" request, run on the characteristic
    as it is when the listener calls it.  The single-use guard [once] of
    util/once is not among the sources: this is the callback's first and
    only effective call.  A promise resolved without a payload is
    [Resolved None]. *)
Definition set_completion (k : SetRequest) (c : Characteristic)
  (st : CallbackStatus) (writeResponse : Value)
  : Characteristic * list Event * Promise (option Value) :=
  let failure :=
    match st with
    | NoStatus => None
    | StatusCode code => if code =? 0 then None else Some code
    | StatusError message => Some (extractHAPStatusFromError message)
    end in
  match failure with
  | Some code => (with_status c code, [], Rejected code)
  | None =>
      let c := with_status c Status.SUCCESS in
      let '(c, settled) :=
        if negb (is_nullish writeResponse)
           && includes (perms (props c)) WRITE_RESPONSE
        then (with_value c writeResponse, Resolved (Some writeResponse))
        else (with_value c (captured_value k), Resolved None) in
      (c,
       if change_due c (captured_oldValue k) (captured_value k)
       then [CHANGE (captured_oldValue k) (captured_value k)
               (captured_context k)]
       else [],
       settled)
  end.

(** [handleSetRequest(value, session, context)].  With a "set" listener
    the request stays pending and the listener is handed the completion
    [set_completion k]. *)
Definition handleSetRequest (c : Characteristic) (v : Value)
  (session : Session) (context : Context)
  : Characteristic
    * result (list Event * Promise (option Value) * option SetRequest) :=
  let c := with_status c Status.SUCCESS in
  match validateValue c v with
  | Throw e => (c, Throw e)
  | Ok v =>
      let oldValue := value c in
      if (setListeners c =? 0)%nat
      then
        let c := with_value c v in
        (c, Ok (if change_due c oldValue v
                then [CHANGE oldValue v context] else [],
                Resolved None, None))
      else
        (c, Ok ([SET v context session], Pending,
                Some (mkSetRequest oldValue v context)))
  end.

(** *** serialize, deserialize *)

Record SerializedCharacteristic : Set := mkSerialized {
  s_displayName : JSString;
  s_UUID : JSString;
  s_props : CharacteristicProps;
  s_value : Value;
  s_eventOnlyCharacteristic : bool
}.

(** Modelled from the spec: [clone] of util/clone is not among the sources;
    the serialized form carries the constraints, so [clone({}, props)] is a
    copy holding every key of [props] with its value. *)
Definition clone (p : CharacteristicProps) : CharacteristicProps := p.

Definition serialize (c : Characteristic) : SerializedCharacteristic :=
  mkSerialized (displayName c) (UUID c) (clone (props c)) (value c)
    (eventOnlyCharacteristic c).

Definition deserialize (json : SerializedCharacteristic)
  : result Characteristic :=
  characteristic <-
    new_Characteristic (s_displayName json) (s_UUID json)
      (Some (s_props json)) ;;
  let characteristic := with_value characteristic (s_value json) in
  Ok (with_eventOnly characteristic (s_eventOnlyCharacteristic json)).

(** *** toHAP *)

Record ToHAPOptions : Set := mkOptions { omitValues : bool }.

(** The wire record; [None] is a key the record does not have. *)
Record HapCharacteristic : Set := mkHap {
  hap_iid : option number;
  hap_type : JSString;
  hap_perms : list Perms;
  hap_format : option Formats;
  hap_value : option Value;
  hap_description : JSString;
  hap_valid_values : option (list number);
  hap_valid_values_range : option (list number);
  hap_unit : option Units;
  hap_maxValue : option number;
  hap_minValue : option number;
  hap_minStep : option number;
  hap_maxLen : option number
}.

Definition set_hap_value (h : HapCharacteristic) (v : option Value)
  : HapCharacteristic :=
  mkHap (hap_iid h) (hap_type h) (hap_perms h) (hap_format h) v
    (hap_description h) (hap_valid_values h) (hap_valid_values_range h)
    (hap_unit h) (hap_maxValue h) (hap_minValue h) (hap_minStep h)
    (hap_maxLen h).

Definition set_hap_maxLen (h : HapCharacteristic) (n : number)
  : HapCharacteristic :=
  mkHap (hap_iid h) (hap_type h) (hap_perms h) (hap_format h) (hap_value h)
    (hap_description h) (hap_valid_values h) (hap_valid_values_range h)
    (hap_unit h) (hap_maxValue h) (hap_minValue h) (hap_minStep h)
    (Some n).

(** [p != null]. *)
Definition not_null (p : optnum) : option number :=
  match p with
  | ONum n => Some n
  | _ => None
  end.

(** The longest prefix of hexadecimal digits, as a value. *)
Fixpoint hex_prefix (s : JSString) (acc : option Z) : option Z :=
  match s with
  | c :: r =>
      match hex_val c with
      | Some d => hex_prefix r (Some (match acc with
                                      | Some a => a * 16 + d
                                      | None => d
                                      end))
      | None => acc
      end
  | [] => acc
  end.

(** [parseInt(s)] without a radix: a [0x] prefix selects base 16. *)
Definition parseInt_auto_str (s : JSString) : number :=
  let '(neg, r) := take_sign (skip_ws s) in
  match r with
  | 48 :: c :: r' =>
      if (c =? 120) || (c =? 88)
      then match hex_prefix r' None with
           | Some z => of_Z (signed neg z)
           | None => NaN
           end
      else parseInt_str s
  | _ => parseInt_str s
  end.

Definition parseInt_auto (v : Value) : number :=
  match v with
  | VNum x => parseInt_num x
  | _ => parseInt_auto_str (ToString v)
  end.

(** [decimalPlaces(num)]: the fractional digits of the printed number less
    its exponent, floored at 0; for a finite number, in either notation,
    the count of its fractional digits. *)
Definition decimalPlaces (num : number) : nat :=
  match num with
  | Fin d => scale (canon d)
  | _ => O
  end.

(** [Math.round(value * pow) / pow] with [pow = 10^places]. *)
Definition round_to (x : number) (places : nat) : number :=
  match x with
  | Fin d =>
      Fin (canon (mkDec (div_half_up (mant d * pow10 places)
                           (pow10 (scale d))) places))
  | other => other
  end.

Definition is_even_length {A} (l : list A) : bool := Nat.even (length l).

Definition nonempty {A} (l : option (list A)) : option (list A) :=
  match l with
  | Some (_ :: _) => l
  | _ => None
  end.

Section WireProjection.

(** [toShortForm] of util/uuid and [BASE_UUID] of the generated HomeKit
    types are not among the sources; the projection takes them as given.
    Shortening may refuse an identifier by throwing. *)
Variable toShortForm : JSString -> JSString -> result JSString.
Variable BASE_UUID : JSString.

(** The value after the bounds and the format have been applied. *)
Definition projected_value (c : Characteristic) : Value :=
  let value := value c in
  let value :=
    match not_null (minValue (props c)) with
    | Some lo => if value_lt value (Some lo) then VNum lo else value
    | None => value
    end in
  let value :=
    match not_null (maxValue (props c)) with
    | Some hi => if value_gt value (Some hi) then VNum hi else value
    | None => value
    end in
  let value :=
    match format (props c) with
    | Some INT | Some UINT8 | Some UINT16 | Some UINT32 | Some UINT64 =>
        VNum (parseInt_auto value)
    | Some FLOAT =>
        let value := parseFloat value in
        match not_null (minStep (props c)) with
        | Some step => VNum (round_to value (decimalPlaces step))
        | None => VNum value
        end
    | _ => value
    end in
  if eventOnlyCharacteristic c then VNull else value.

(** The string block: the byte length decides on [maxLen] and on cutting
    the value; [Buffer.from] refuses what is not a string. *)
Definition string_block (value : Value) (hap : HapCharacteristic)
  : result HapCharacteristic :=
  match value with
  | VStr s =>
      let str := Utf8.encode s in
      let len := Z.of_nat (length str) in
      if 256 <? len
      then Ok (set_hap_maxLen
                 (set_hap_value hap
                    (Some (VStr (Utf8.decode (firstn 256 str)))))
                 (of_Z 256))
      else if 64 <? len then Ok (set_hap_maxLen hap (of_Z len))
      else Ok hap
  | _ => Throw TypeError
  end.

Definition toHAP (c : Characteristic) (opt : option ToHAPOptions)
  : result HapCharacteristic :=
  let value := projected_value c in
  type <- toShortForm (UUID c) BASE_UUID ;;
  let hap :=
    mkHap (iid c) type (perms (props c)) (format (props c)) (Some value)
      (displayName c)
      (nonempty (validValues (props c)))
      (match nonempty (validValueRanges (props c)) with
       | Some l => if is_even_length l then Some l else None
       | None => None
       end)
      (unit_ (props c))
      (not_null (maxValue (props c)))
      (not_null (minValue (props c)))
      (not_null (minStep (props c)))
      None in
  hap <- match format (props c) with
         | Some STRING => string_block value hap
         | _ => Ok hap
         end ;;
  let hap :=
    if negb (includes (perms (props c)) PAIRED_READ)
    then set_hap_value hap None else hap in
  let hap :=
    match opt with
    | Some o => if omitValues o then set_hap_value hap None else hap
    | None => hap
    end in
  Ok hap.

End WireProjection.

(** *** getDefaultValue, updateValue, the completion of a "get" request *)

(** What [getDefaultValue] returns: a primitive, or one of the two fresh
    objects [{}] and [[]]. *)
Inductive DefaultValue : Set :=
| Primitive (v : Value)
| EmptyDictionary
| EmptyArray.

Definition getDefaultValue (c : Characteristic) : DefaultValue :=
  match format (props c) with
  | Some BOOL => Primitive (VBool false)
  | Some STRING => Primitive (VStr [])
  | Some DATA => Primitive VNull
  | Some TLV8 => Primitive VNull
  | Some DICTIONARY => EmptyDictionary
  | Some ARRAY => EmptyArray
  | _ =>
      Primitive
        (match minValue (props c) with
         | ONum n => if Num.truthy n then VNum n else VNum (of_Z 0)
         | _ => VNum (of_Z 0)
         end)
  end.

(** The value a characteristic can hold in this embedding; the two objects
    have none. *)
Definition storable (d : DefaultValue) : option Value :=
  match d with
  | Primitive v => Some v
  | _ => None
  end.

(** [value == undefined ? getDefaultValue() : value]. *)
Definition or_default (c : Characteristic) (v : Value) : option Value :=
  if is_nullish v then storable (getDefaultValue c) else Some v.

(** What a direct update does besides storing: it calls the callback it
    was given and asks the emitter to raise events. *)
Inductive Effect : Set :=
| CALLBACK
| EMIT (e : Event).

(** [updateValue(value, callback, context)]; [callback] tells whether one
    was passed.  The result is [None] when the update would store [{}] or
    [[]], which only the dictionary and array formats do. *)
Definition updateValue (c : Characteristic) (v : Value) (callback : bool)
  (context : Context) : option (Characteristic * result (list Effect)) :=
  let c := with_status c Status.SUCCESS in
  match validateValue c v with
  | Throw e => Some (c, Throw e)
  | Ok v =>
      match or_default c v with
      | None => None
      | Some v =>
          let oldValue := value c in
          let c := with_value c v in
          Some (c, Ok ((if callback then [CALLBACK] else [])
                       ++ (if change_due c oldValue v
                           then [EMIT (CHANGE oldValue v context)] else [])))
      end
  end.

Definition setValue (c : Characteristic) (newValue : Value) (callback : bool)
  (context : Context) : option (Characteristic * result (list Effect)) :=
  updateValue c newValue callback context.

(** [if (status) ...] in a completion callback: the status to record, if
    the argument reports a failure. *)
Definition reported_failure (st : CallbackStatus) : option Z :=
  match st with
  | NoStatus => None
  | StatusCode code => if code =? 0 then None else Some code
  | StatusError message => Some (extractHAPStatusFromError message)
  end.

(** The completion callback of a "get" request, run on the characteristic
    as it is when the listener calls it (its first and only effective
    call, as for "set").  When [validateValue] throws, the exception goes
    to the listener and the promise stays pending.  [None] as for
    [updateValue]. *)
Definition get_completion (context : Context) (c : Characteristic)
  (st : CallbackStatus) (v : Value)
  : option (Characteristic * result (list Event * Promise Value)) :=
  match reported_failure st with
  | Some code => Some (with_status c code, Ok ([], Rejected code))
  | None =>
      let c := with_status c Status.SUCCESS in
      match validateValue c v with
      | Throw e => Some (c, Throw e)
      | Ok v =>
          match or_default c v with
          | None => None
          | Some v =>
              let oldValue := value c in
              let c := with_value c v in
              Some (c, Ok (if negb (strict_equal oldValue v)
                           then [CHANGE oldValue v context] else [],
                           Resolved v))
          end
      end
  end.

(** ** Vocabulary of the properties *)

(** [a <= b] on numbers. *)
Definition leb (a b : number) : bool :=
  match a, b with
  | NaN, _ | _, NaN => false
  | _, _ => negb (Num.ltb b a)
  end.

(** [y] lies in the closed interval; an absent bound leaves its side open. *)
Definition within (lo hi : option number) (y : number) : bool :=
  match lo with Some a => leb a y | None => negb (Num.isNaN y) end
  && match hi with Some b => leb y b | None => negb (Num.isNaN y) end.





Definition ordered (lo hi : option number) : Prop :=
  match lo, hi with
  | Some a, Some b => leb a b = true
  | _, _ => True
  end.

(** Absent, or a finite number. *)
Definition finite_bound (b : option number) : Prop :=
  match b with
  | Some (Fin _) | None => True
  | Some _ => False
  end.

(** The locals of the format switch when the format is a numeric one. *)
Definition family_of (c : Characteristic) : option Locals :=
  match format_switch c VUndefined with
  | Break r => if isNumericType r then Some r else None
  | Return _ => None
  end.

(** The mantissa of a decimal written with [n] fractional digits, [n] at
    least its scale. *)
Definition at_scale (d : dec) (n : nat) : Z := mant d * pow10 (n - scale d).

(** Bounds [setProps] accepts. *)
Definition valid_bounds (p : CharacteristicProps) : Prop :=
  match minValue p, maxValue p with
  | ONum lo, ONum hi => Num.ltb hi lo = false
  | _, _ => True
  end.

Inductive SubscriptionCall : Set :=
| CallSubscribe
| CallUnsubscribe.

Definition call (c : Characteristic) (op : SubscriptionCall)
  : Characteristic * list Event :=
  match op with
  | CallSubscribe => subscribe c
  | CallUnsubscribe => unsubscribe c
  end.

(** A sequence of calls: the final characteristic and everything emitted. *)
Fixpoint run_calls (c : Characteristic) (ops : list SubscriptionCall)
  : Characteristic * list Event :=
  match ops with
  | [] => (c, [])
  | op :: rest =>
      let '(c1, e1) := call c op in
      let '(c2, e2) := run_calls c1 rest in
      (c2, e1 ++ e2)
  end.

Definition with_minValue (c : Characteristic) (p : optnum) : Characteristic :=
  with_props c
    (mkProps (format (props c)) (perms (props c)) (unit_ (props c))
       (description (props c)) p (maxValue (props c)) (minStep (props c))
       (maxLen (props c)) (maxDataLen (props c)) (validValues (props c))
       (validValueRanges (props c)) (adminOnlyAccess (props c))).

Definition with_maxValue (c : Characteristic) (p : optnum) : Characteristic :=
  with_props c
    (mkProps (format (props c)) (perms (props c)) (unit_ (props c))
       (description (props c)) (minValue (props c)) p (minStep (props c))
       (maxLen (props c)) (maxDataLen (props c)) (validValues (props c))
       (validValueRanges (props c)) (adminOnlyAccess (props c))).

Definition with_minStep (c : Characteristic) (p : optnum) : Characteristic :=
  with_props c
    (mkProps (format (props c)) (perms (props c)) (unit_ (props c))
       (description (props c)) (minValue (props c)) (maxValue (props c)) p
       (maxLen (props c)) (maxDataLen (props c)) (validValues (props c))
       (validValueRanges (props c)) (adminOnlyAccess (props c))).

(** *** Sample characteristics *)

Definition num (z : Z) : number := of_Z z.

Definition sample_props (f : Formats) (lo hi step : optnum)
  : CharacteristicProps :=
  mkProps (Some f) [PAIRED_READ; PAIRED_WRITE; NOTIFY] None None
    lo hi step OUndefined OUndefined None None None.

Definition sample (p : CharacteristicProps) (v : Value) : Characteristic :=
  mkCharacteristic (lit "Sample") (lit "00000025-0000-1000-8000-0026BB765291")
    None v Status.SUCCESS false p 0 O O.

(** A shortening that accepts every identifier and keeps it whole. *)
Definition keep_uuid (uuid base : JSString) : result JSString := Ok uuid.

Definition ten_above_five : PartialProps :=
  mkPartial None None None None (Some (ONum (num 10))) (Some (ONum (num 5)))
    None None None None None None.

(** A float characteristic between 10 and 100 in steps of 0.1. *)
Definition tenths : Characteristic :=
  sample (sample_props FLOAT (ONum (num 10)) (ONum (num 100))
            (ONum (Fin (mkDec 1 1)))) VNull.

(** An 8-bit characteristic declared between 5 and 10. *)
Definition five_to_ten : Characteristic :=
  sample (sample_props UINT8 (ONum (num 5)) (ONum (num 10)) OUndefined) VNull.

(** A string characteristic that allows 256 characters. *)
Definition string_sample (v : Value) : Characteristic :=
  sample (mkProps (Some STRING) [PAIRED_READ; PAIRED_WRITE; NOTIFY] None None
            OUndefined OUndefined OUndefined (ONum (num 256)) OUndefined
            None None None) v.

(** 255 times "a", then "e" with an acute accent (U+00E9): 256 characters,
    257 bytes. *)
Definition accented_name : JSString := repeat 97 255%nat ++ [233].

Definition no_dot (s : JSString) : Prop := Forall (fun c => c <> 46) s.

Definition decimal_digits (l : list Z) : Prop :=
  Forall (fun d => 0 <= d <= 9) l.

Definition ascii_only (s : JSString) : Prop :=
  Forall (fun c => 0 <= c < 128) s.

(** *** Vocabulary of the further properties *)

(** The edge events of a trace take turns, starting with "subscribe" when
    [next_is_subscribe] holds. *)
Fixpoint alternating (next_is_subscribe : bool) (l : list Event) : bool :=
  match l with
  | [] => true
  | SUBSCRIBE :: r => next_is_subscribe && alternating false r
  | UNSUBSCRIBE :: r => negb next_is_subscribe && alternating true r
  | _ :: _ => false
  end.

(** The formats [validateValue] treats as numbers. *)
Definition numeric_format (f : Formats) : bool :=
  match f with
  | INT | FLOAT | UINT8 | UINT16 | UINT32 | UINT64 => true
  | _ => false
  end.

(** The format of [c] is not one of the numeric ones. *)
Definition not_numeric (c : Characteristic) : Prop :=
  match format (props c) with
  | Some f => numeric_format f = false
  | None => True
  end.

(** The length limit of the string branch when [maxLen] is left out or is
    a natural number. *)
Definition length_limit (p : optnum) : option nat :=
  match p with
  | OUndefined => Some 64%nat
  | ONum (Fin (mkDec m O)) => if 0 <=? m then Some (Z.to_nat m) else None
  | _ => None
  end.

(** The format stores a primitive default. *)
Definition primitive_default (c : Characteristic) : Prop :=
  format (props c) <> Some DICTIONARY /\ format (props c) <> Some ARRAY.

(** A fresh characteristic of the given format without declared
    constraints. *)
Definition fresh_of (f : Formats) : Characteristic :=
  sample (sample_props f OUndefined OUndefined OUndefined) VNull.


(** Case analysis on the format of [c] in [validateValue]. *)
Ltac numeric_formats c :=
  unfold validateValue, format_switch; simpl;
  destruct (format (props c)) as [[] |]; simpl; try reflexivity;
  unfold validate_numeric; simpl.

(** * Properties *)

(** ** The conversions on sample inputs *)

(** Number::toString in its notations. *)
Example Number_toString_samples :
  Number_toString (Fin (mkDec 12345 2)) = lit "123.45"
  /\ Number_toString (Fin (mkDec (-1500) 0)) = lit "-1500"
  /\ Number_toString (Fin (mkDec 1 6)) = lit "0.000001"
  /\ Number_toString (Fin (mkDec 15 8)) = lit "1.5e-7"
  /\ Number_toString (Fin (mkDec 1 7)) = lit "1e-7"
  /\ Number_toString (Fin (mkDec (10 ^ 21) 0)) = lit "1e+21".
Proof. repeat split. Qed.

(** [parseInt] and [parseFloat] of a number agree with parsing what the
    number prints as. *)
Example parse_number_through_string :
  Forall (fun d => parseInt_str (Number_toString (Fin d)) = parseInt (VNum (Fin d))
                   /\ parseFloat_str (Number_toString (Fin d))
                      = parseFloat (VNum (Fin d)))
    [mkDec 12345 2; mkDec (-5) 1; mkDec 1 6; mkDec 15 8; mkDec (-1) 7;
     mkDec (10 ^ 21) 0; mkDec 0 0; mkDec 255 0].
Proof. repeat constructor. Qed.

Example parse_string_samples :
  parseInt_str (lit "  -12abc") = num (-12)
  /\ parseInt_str (lit "abc") = NaN
  /\ parseFloat_str (lit "12.50e-1x") = Fin (mkDec 125 2)
  /\ StringToNumber (lit "300abc") = NaN
  /\ StringToNumber (lit " 0x1A ") = num 26
  /\ StringToNumber (lit "") = num 0.
Proof. repeat split. Qed.

(** The decimals read off a step: those of 0.1, the four characters of
    ["5e-7"], and a TypeError for a step printed without a point. *)
Example stepDecimals_samples :
  stepDecimals (num 1) = Ok O
  /\ stepDecimals (Fin (mkDec 1 1)) = Ok 1%nat
  /\ stepDecimals (Fin (mkDec 15 8)) = Ok 4%nat
  /\ stepDecimals (Fin (mkDec 1 7)) = Throw TypeError.
Proof. repeat split. Qed.

(** ** Decimal arithmetic *)

Lemma pow10_pos (n : nat) : 0 < pow10 n.
Proof.
  unfold pow10. apply Z.pow_pos_nonneg; lia.
Qed.

(** The comparison of decimals is the order of the rationals they
    denote. *)
Lemma dltb_order (a b : dec) : dltb a b = true <-> (dval a < dval b)%Q.
Proof.
  unfold dltb, dcompare, dval, Qlt. cbn [Qnum Qden].
  rewrite !Z2Pos.id by apply pow10_pos.
  destruct (Z.compare_spec (mant a * pow10 (scale b))
              (mant b * pow10 (scale a))) as [E | E | E];
    split; intros H; try discriminate; try reflexivity; lia.
Qed.

Lemma pow10_add (a b : nat) : pow10 (a + b) = pow10 a * pow10 b.
Proof.
  unfold pow10. rewrite Nat2Z.inj_add, Z.pow_add_r; lia.
Qed.

Lemma pow10_split (n e : nat) : (e <= n)%nat -> pow10 n = pow10 e * pow10 (n - e).
Proof.
  intros H. rewrite <- pow10_add. f_equal. lia.
Qed.

Lemma compare_scaled (x y x' y' p q : Z) :
  0 < p -> 0 < q -> x * p = x' * q -> y * p = y' * q ->
  (x ?= y) = (x' ?= y').
Proof.
  intros Hp Hq Hx Hy.
  destruct (Z.compare_spec x y) as [E | E | E];
    destruct (Z.compare_spec x' y') as [E' | E' | E']; try reflexivity; nia.
Qed.

Lemma dcompare_at_scale (a b : dec) (n : nat) :
  (scale a <= n)%nat -> (scale b <= n)%nat ->
  dcompare a b = (at_scale a n ?= at_scale b n).
Proof.
  intros Ha Hb. unfold dcompare, at_scale.
  apply compare_scaled with (p := pow10 n) (q := pow10 (scale a) * pow10 (scale b)).
  - apply pow10_pos.
  - pose proof (pow10_pos (scale a)); pose proof (pow10_pos (scale b)); nia.
  - rewrite (pow10_split n (scale a) Ha). ring.
  - rewrite (pow10_split n (scale b) Hb). ring.
Qed.



Lemma strip_spec (s : nat) : forall m,
  (scale (strip m s) <= s)%nat
  /\ m = mant (strip m s) * pow10 (s - scale (strip m s)).
Proof.
  induction s as [| s IH]; intros m; cbn [strip].
  - cbn [scale mant]. split; [lia |]. change (pow10 (0 - 0)) with 1. lia.
  - destruct (Z.eqb_spec (m mod 10) 0) as [E | E].
    + destruct (IH (m / 10)) as [H1 H2]. split; [lia |].
      replace (S s - scale (strip (m / 10) s))%nat
        with ((s - scale (strip (m / 10) s)) + 1)%nat by lia.
      rewrite pow10_add, Z.mul_assoc, <- H2.
      change (pow10 1) with 10.
      pose proof (Z.div_mod m 10). lia.
    + cbn [scale mant]. split; [lia |]. rewrite Nat.sub_diag.
      change (pow10 0) with 1. lia.
Qed.


Lemma dltb_at_scale (a b : dec) (n : nat) :
  (scale a <= n)%nat -> (scale b <= n)%nat ->
  dltb a b = (at_scale a n <? at_scale b n).
Proof.
  intros Ha Hb. unfold dltb, Z.ltb.
  rewrite (dcompare_at_scale a b n Ha Hb). reflexivity.
Qed.






Lemma leb_at_scale (a b : dec) (n : nat) :
  (scale a <= n)%nat -> (scale b <= n)%nat ->
  leb (Fin a) (Fin b) = (at_scale a n <=? at_scale b n).
Proof.
  intros Ha Hb. unfold leb, Num.ltb.
  rewrite (dltb_at_scale b a n Hb Ha). apply eq_sym, Z.leb_antisym.
Qed.



Section StepKeepsBounds.

Variables (d s : dec) (dp : nat).
Hypothesis step_nonzero : mant s <> 0.
Hypothesis decimals_cover : (scale (canon s) <= dp)%nat.



End StepKeepsBounds.

(** ** Printed decimals *)

Lemma digits_lsf_range (fuel : nat) : forall m,
  0 <= m -> decimal_digits (digits_lsf fuel m).
Proof.
  unfold decimal_digits.
  induction fuel as [| f IH]; intros m Hm; cbn [digits_lsf]; [constructor |].
  destruct (Z.ltb_spec m 10).
  - constructor; [lia | constructor].
  - constructor.
    + pose proof (Z.mod_pos_bound m 10). lia.
    + apply IH. apply Z.div_pos; lia.
Qed.

Lemma digits_lsf_value (fuel : nat) : forall m,
  0 <= m < 2 ^ Z.of_nat fuel ->
  fold_right (fun d acc => acc * 10 + d) 0 (digits_lsf fuel m) = m.
Proof.
  induction fuel as [| f IH]; intros m Hm.
  - cbn in Hm. assert (m = 0) by lia. subst. reflexivity.
  - cbn [digits_lsf]. destruct (Z.ltb_spec m 10).
    + cbn. lia.
    + cbn [fold_right]. rewrite IH.
      * pose proof (Z.div_mod m 10). lia.
      * rewrite Nat2Z.inj_succ, Z.pow_succ_r in Hm by lia.
        split; [apply Z.div_pos; lia |].
        apply Z.div_lt_upper_bound; lia.
Qed.

(** The digits of [m] read back as [m]: the fuel of [digits_of] suffices. *)
Lemma digits_of_value (m : Z) : 0 <= m -> digits_val (digits_of m) = m.
Proof.
  intros Hm. unfold digits_val, digits_of.
  rewrite <- fold_left_rev_right, rev_involutive.
  apply digits_lsf_value. split; [exact Hm |].
  rewrite Nat2Z.inj_succ, Z2Nat.id by apply Z.log2_nonneg.
  destruct (Z.eq_dec m 0) as [E | E]; [subst; reflexivity |].
  apply Z.log2_spec. lia.
Qed.

Lemma drop_zeros_head (l : list Z) :
  hd 1 l <> 0 -> drop_zeros l = l.
Proof.
  destruct l as [| [| p | p] r]; cbn; try reflexivity; intros H; lia.
Qed.

(** The least significant digit of a number that does not end in 0. *)
Lemma digits_lsf_head (fuel : nat) (m : Z) :
  0 < m -> m mod 10 <> 0 -> hd 1 (digits_lsf (S fuel) m) <> 0.
Proof.
  intros Hm Hmod. cbn [digits_lsf].
  destruct (Z.ltb_spec m 10); cbn [hd]; lia.
Qed.

Lemma sig_digits_canonical (d : dec) :
  mant (canon d) mod 10 <> 0 ->
  sig_digits d = digits_of (Z.abs (mant (canon d))).
Proof.
  intros Hmod. unfold sig_digits, digits_of. rewrite rev_involutive.
  rewrite drop_zeros_head; [reflexivity |].
  apply digits_lsf_head.
  - destruct (Z.eq_dec (mant (canon d)) 0) as [E | E]; [| lia].
    rewrite E in Hmod. cbn in Hmod. lia.
  - intros H. apply Hmod.
    destruct (Z.abs_spec (mant (canon d))) as [[_ E] | [_ E]]; rewrite E in H;
      [exact H |].
    apply Z.mod_divide in H; [| lia]. apply Z.mod_divide; [lia |].
    apply Z.divide_opp_r in H. rewrite Z.opp_involutive in H. exact H.
Qed.

Lemma strip_canonical (s : nat) : forall m,
  scale (strip m s) = O \/ mant (strip m s) mod 10 <> 0.
Proof.
  induction s as [| s IH]; intros m; cbn [strip]; [left; reflexivity |].
  destruct (Z.eqb_spec (m mod 10) 0) as [E | E]; [apply IH |].
  right. exact E.
Qed.

Lemma non_integer_canonical (d : dec) :
  is_integer d = false ->
  (0 < scale (canon d))%nat /\ mant (canon d) mod 10 <> 0.
Proof.
  intros Hint. unfold canon.
  destruct (strip_spec (scale d) (mant d)) as [Hle Hm].
  assert (Hs : scale (strip (mant d) (scale d)) <> O).
  { intros E. rewrite E, Nat.sub_0_r in Hm.
    unfold is_integer in Hint. apply Z.eqb_neq in Hint. apply Hint.
    rewrite Hm. apply Z.mod_mul. pose proof (pow10_pos (scale d)). lia. }
  split; [lia |].
  destruct (strip_canonical (scale d) (mant d)) as [E | E];
    [contradiction | exact E].
Qed.

Lemma split_dot_plain (b cur : JSString) :
  no_dot b -> split_dot b cur = [rev cur ++ b].
Proof.
  intros H. revert cur. induction H as [| c r Hc _ IH]; intros cur;
    cbn [split_dot].
  - rewrite app_nil_r. reflexivity.
  - destruct (Z.eqb_spec c 46); [contradiction |].
    rewrite IH. cbn [rev]. rewrite <- app_assoc. reflexivity.
Qed.

Lemma split_dot_once (a b cur : JSString) :
  no_dot a -> no_dot b ->
  split_dot (a ++ 46 :: b) cur = [rev cur ++ a; b].
Proof.
  intros Ha Hb. revert cur. induction Ha as [| c r Hc _ IH]; intros cur;
    cbn [split_dot app].
  - rewrite app_nil_r. rewrite (split_dot_plain b [] Hb). reflexivity.
  - destruct (Z.eqb_spec c 46); [contradiction |].
    rewrite IH. cbn [rev]. rewrite <- app_assoc. reflexivity.
Qed.

Lemma digit_chars_no_dot (l : list Z) :
  decimal_digits l -> no_dot (digit_chars l).
Proof.
  unfold decimal_digits, no_dot, digit_chars. intros H.
  induction H as [| c r Hc _ IH]; cbn [map]; constructor; [lia | exact IH].
Qed.

Lemma repeat_no_dot (n : nat) : no_dot (repeat 48 n).
Proof.
  unfold no_dot. induction n; cbn [repeat]; constructor; [lia | assumption].
Qed.

Lemma no_dot_app (a b : JSString) : no_dot a -> no_dot b -> no_dot (a ++ b).
Proof.
  unfold no_dot. intros Ha Hb. apply Forall_app. split; assumption.
Qed.

Lemma decimal_digits_firstn (n : nat) (l : list Z) :
  decimal_digits l -> decimal_digits (firstn n l).
Proof.
  unfold decimal_digits. intros H. revert n.
  induction H as [| c r Hc _ IH]; intros [| n]; cbn [firstn];
    try apply Forall_nil.
  apply Forall_cons; [exact Hc | apply IH].
Qed.

Lemma decimal_digits_skipn (n : nat) (l : list Z) :
  decimal_digits l -> decimal_digits (skipn n l).
Proof.
  unfold decimal_digits. intros H. revert n.
  induction H as [| c r Hc Hr IH]; intros [| n]; cbn [skipn];
    try apply Forall_nil.
  - apply Forall_cons; assumption.
  - apply IH.
Qed.

Lemma digits_of_range (m : Z) : 0 <= m -> decimal_digits (digits_of m).
Proof.
  intros Hm. unfold digits_of, decimal_digits.
  apply Forall_rev. apply digits_lsf_range. exact Hm.
Qed.

Lemma plain_step_prints_its_decimals (d : dec) :
  is_integer d = false -> exponent_notation d = false ->
  fraction_length (Fin d) = Ok (scale (canon d)).
Proof.
  intros Hint Hplain.
  destruct (non_integer_canonical d Hint) as [Hsc Hmod].
  assert (Hnz : mant d <> 0).
  { intros E. unfold is_integer in Hint. rewrite E in Hint.
    rewrite Z.mod_0_l in Hint; [discriminate |].
    pose proof (pow10_pos (scale d)). lia. }
  unfold exponent_notation in Hplain.
  unfold fraction_length, Number_toString.
  destruct (Z.eqb_spec (mant d) 0) as [E | _]; [contradiction |].
  cbn [negb andb] in Hplain.
  rewrite (sig_digits_canonical d Hmod).
  unfold point_pos in *.
  set (ds := digits_of (Z.abs (mant (canon d)))) in *.
  assert (Hds : decimal_digits ds) by (apply digits_of_range; lia).
  set (n := Z.of_nat (length ds) - Z.of_nat (scale (canon d))) in *.
  apply orb_false_elim in Hplain. destruct Hplain as [H21 H6].
  apply Z.ltb_ge in H21. apply Z.leb_gt in H6.
  destruct (Z.leb_spec (Z.of_nat (length ds)) n) as [Hk | Hk];
    [unfold n in Hk; lia |].
  cbn [andb].
  assert (Hsign : no_dot (if mant d <? 0 then lit "-" else [])).
  { unfold no_dot. destruct (mant d <? 0); repeat constructor.
    cbn. lia. }
  destruct (Z.ltb_spec 0 n) as [Hpos | Hneg].
  - destruct (Z.leb_spec n 21) as [_ | ?]; [| lia]. cbn [andb].
    change (lit ".") with [46]. cbn [app].
    rewrite app_assoc.
    rewrite split_dot_once.
    + cbn [nth_error]. f_equal.
      unfold digit_chars. rewrite length_map, length_skipn. unfold n. lia.
    + apply no_dot_app; [exact Hsign |].
      apply digit_chars_no_dot, decimal_digits_firstn, Hds.
    + apply digit_chars_no_dot, decimal_digits_skipn, Hds.
  - cbn [andb].
    destruct (Z.ltb_spec (-6) n) as [_ | ?]; [| lia].
    destruct (Z.leb_spec n 0) as [_ | ?]; [| lia]. cbn [andb].
    change (lit "0.") with ([48] ++ [46]).
    rewrite <- !app_assoc. cbn [app].
    match goal with
    | |- context [split_dot (?sg ++ 48 :: 46 :: ?rest) []] =>
        change (sg ++ 48 :: 46 :: rest) with (sg ++ [48] ++ 46 :: rest)
    end.
    rewrite app_assoc.
    rewrite split_dot_once.
    + cbn [nth_error]. f_equal.
      unfold digit_chars. rewrite length_app, repeat_length, length_map.
      unfold n. lia.
    + apply no_dot_app; [exact Hsign |]. repeat constructor. lia.
    + apply no_dot_app; [apply repeat_no_dot |].
      apply digit_chars_no_dot, Hds.
Qed.



(** ** validateValue: the numeric formats *)

Lemma clamp_within (x : dec) (lo hi : option number) :
  finite_bound lo -> finite_bound hi -> ordered lo hi ->
  exists d,
    clamp_high (clamp_low (VNum (Fin x)) lo) hi = VNum (Fin d)
    /\ within lo hi (Fin d) = true.
Proof.
  destruct lo as [[| ? | a] |]; destruct hi as [[| ? | b] |];
    try contradiction; intros _ _ Hord; unfold ordered in Hord;
    unfold clamp_low, clamp_high, value_lt, value_gt, within;
    cbn [ToNumber Num.ltb Num.isNaN negb].
  - set (n := Nat.max (scale x) (Nat.max (scale a) (scale b))).
    rewrite (leb_at_scale a b n) in Hord by (unfold n; lia).
    apply Z.leb_le in Hord.
    rewrite (dltb_at_scale x a n) by (unfold n; lia).
    destruct (Z.ltb_spec (at_scale x n) (at_scale a n)) as [H1 | H1];
      cbn [ToNumber Num.ltb].
    + rewrite (dltb_at_scale b a n) by (unfold n; lia).
      destruct (Z.ltb_spec (at_scale b n) (at_scale a n)) as [H2 | H2];
        [lia |].
      exists a. split; [reflexivity |].
      rewrite (leb_at_scale a a n), (leb_at_scale a b n) by (unfold n; lia).
      apply andb_true_intro; split; apply Z.leb_le; lia.
    + rewrite (dltb_at_scale b x n) by (unfold n; lia).
      destruct (Z.ltb_spec (at_scale b n) (at_scale x n)) as [H2 | H2].
      * exists b. split; [reflexivity |].
        rewrite (leb_at_scale a b n), (leb_at_scale b b n) by (unfold n; lia).
        apply andb_true_intro; split; apply Z.leb_le; lia.
      * exists x. split; [reflexivity |].
        rewrite (leb_at_scale a x n), (leb_at_scale x b n) by (unfold n; lia).
        apply andb_true_intro; split; apply Z.leb_le; lia.
  - set (n := Nat.max (scale x) (scale a)).
    rewrite (dltb_at_scale x a n) by (unfold n; lia).
    destruct (Z.ltb_spec (at_scale x n) (at_scale a n)) as [H1 | H1].
    + exists a. split; [reflexivity |].
      rewrite (leb_at_scale a a n) by (unfold n; lia).
      rewrite andb_true_r. apply Z.leb_le; lia.
    + exists x. split; [reflexivity |].
      rewrite (leb_at_scale a x n) by (unfold n; lia).
      rewrite andb_true_r. apply Z.leb_le; lia.
  - set (n := Nat.max (scale x) (scale b)).
    rewrite (dltb_at_scale b x n) by (unfold n; lia).
    destruct (Z.ltb_spec (at_scale b n) (at_scale x n)) as [H1 | H1].
    + exists b. split; [reflexivity |].
      rewrite (leb_at_scale b b n) by (unfold n; lia).
      apply Z.leb_le; lia.
    + exists x. split; [reflexivity |].
      rewrite (leb_at_scale x b n) by (unfold n; lia).
      apply Z.leb_le; lia.
  - exists x. split; reflexivity.
Qed.





(** What the switch leaves for a numeric format: finite bounds or none, a
    step of 1 or none. *)
Lemma numeric_locals (c : Characteristic) (v : Value) (r : Locals) :
  format_switch c v = Break r -> isNumericType r = true ->
  finite_bound (minValue_resolved r)
  /\ finite_bound (maxValue_resolved r)
  /\ (minStep_resolved r = None \/ minStep_resolved r = Some (of_Z 1)).
Proof.
  unfold format_switch, integer_family.
  destruct (format (props c)) as [[] |]; intros H; try discriminate;
    injection H as H; subst r; cbn; intros Hn; try discriminate;
    repeat split; auto.
Qed.


Lemma family_of_switch (c : Characteristic) (r : Locals) :
  family_of c = Some r ->
  forall v, format_switch c v = Break r /\ isNumericType r = true.
Proof.
  unfold family_of, format_switch, integer_family.
  destruct (format (props c)) as [[] |]; cbn; intros H v;
    try discriminate; injection H as H; subst r; split; reflexivity.
Qed.




(** Each premise of the bound is needed: a string that only starts with
    digits is compared as [NaN] and passes the clamp; an input that does
    not parse gives back the cached value, here [null]; a step that does
    not divide the minimum takes the value below it; a declared window of
    valid values moves the value after the clamp. *)
Lemma numeric_coercion_string_skips_clamp :
  validateValue
    (sample (sample_props UINT8 OUndefined OUndefined OUndefined) VNull)
    (VStr (lit "300abc"))
  = Ok (VNum (num 300)).
Proof. reflexivity. Qed.

Lemma numeric_coercion_falls_back_to_cache :
  validateValue five_to_ten (VStr (lit "abc")) = Ok VNull.
Proof. reflexivity. Qed.

Lemma numeric_coercion_step_below_minimum :
  validateValue
    (sample (sample_props INT (ONum (num 5)) OUndefined (ONum (num 10))) VNull)
    (VNum (num 7))
  = Ok (VNum (num 0)).
Proof. reflexivity. Qed.

Lemma numeric_coercion_window_after_clamp :
  validateValue
    (sample (mkProps (Some UINT8) [PAIRED_READ] None None (ONum (num 5))
               (ONum (num 10)) OUndefined OUndefined OUndefined None
               (Some [num 20; num 30]) None) VNull)
    (VNum (num 7))
  = Ok (VNum (num 20)).
Proof. reflexivity. Qed.

(** ** validateValue: the boolean format *)





(** ** validateValue: zero constraints *)

Lemma declared_zero (z : dec) : mant z = 0 -> declared (ONum (Fin z)) = None.
Proof.
  intros Hz. unfold declared; simpl. rewrite Hz. reflexivity.
Qed.

Lemma override_zero (z : dec) (family : option number) :
  mant z = 0 ->
  override (ONum (Fin z)) family = override OUndefined family.
Proof.
  intros Hz. unfold override. rewrite (declared_zero z Hz). reflexivity.
Qed.

(** C10.  In [validateValue] a declared [maxValue], [minValue] or
    [minStep] of 0 has the effect of an undeclared one, for every format
    and input: the guard of the override tests the number for truthiness.
    A float characteristic with [maxValue = 0] returns the input 5 as 5. *)
Theorem zero_constraint_counts_as_undeclared
  (c : Characteristic) (v : Value) (z : dec) (Hz : mant z = 0) :
  validateValue (with_maxValue c (ONum (Fin z))) v
  = validateValue (with_maxValue c OUndefined) v
  /\ validateValue (with_minValue c (ONum (Fin z))) v
     = validateValue (with_minValue c OUndefined) v
  /\ validateValue (with_minStep c (ONum (Fin z))) v
     = validateValue (with_minStep c OUndefined) v
  /\ validateValue
       (sample (sample_props FLOAT OUndefined (ONum (num 0)) OUndefined) VNull)
       (VNum (num 5))
     = Ok (VNum (num 5)).
Proof.
  split; [| split; [| split]].
  - numeric_formats c; rewrite (override_zero z _ Hz); reflexivity.
  - numeric_formats c; rewrite (override_zero z _ Hz); reflexivity.
  - numeric_formats c; rewrite (override_zero z _ Hz); reflexivity.
  - reflexivity.
Qed.

Lemma zero_constraint_witness :
  validateValue
    (with_maxValue
       (sample (sample_props INT OUndefined OUndefined OUndefined) VNull)
       (ONum (Fin (mkDec 0 0))))
    (VNum (num 5))
  = validateValue
      (with_maxValue
         (sample (sample_props INT OUndefined OUndefined OUndefined) VNull)
         OUndefined)
      (VNum (num 5)).
Proof.
  apply (zero_constraint_counts_as_undeclared
           (sample (sample_props INT OUndefined OUndefined OUndefined) VNull)
           (VNum (num 5)) (mkDec 0 0) eq_refl).
Defined.

(** ** setProps *)

Lemma setProps_inverted_bounds (c : Characteristic) (p : PartialProps)
  (lo hi : number) :
  minValue (assign_props (props c) p) = ONum lo ->
  maxValue (assign_props (props c) p) = ONum hi ->
  Num.ltb hi lo = true ->
  setProps c p =
  (with_props c (clear_bounds (assign_props (props c) p)),
   Throw (Error (setProps_message (displayName c)))).
Proof.
  intros Hlo Hhi Hgt. unfold setProps. rewrite Hlo, Hhi, Hgt. reflexivity.
Qed.

(** C2.  When the argument of [setProps] carries both [minValue] and
    [maxValue], numbers with [minValue > maxValue], the call throws an
    [Error] whose message names the characteristic and the two bounds, and
    the characteristic is left with both [minValue] and [maxValue]
    undefined; so it is for [minValue = 10], [maxValue = 5]. *)
Theorem setProps_min_above_max_throws_and_clears
  (c : Characteristic) (p : PartialProps) (lo hi : number)
  (Hmin : p_minValue p = Some (ONum lo))
  (Hmax : p_maxValue p = Some (ONum hi))
  (Hgt : Num.ltb hi lo = true) :
  exists c',
    setProps c p =
      (c', Throw (Error
                    (lit "Error setting CharacteristicsProps for '"
                     ++ displayName c
                     ++ lit "': 'minValue' cannot be greater or equal the 'maxValue'!")))
    /\ minValue (props c') = OUndefined
    /\ maxValue (props c') = OUndefined.
Proof.
  exists (with_props c (clear_bounds (assign_props (props c) p))).
  split; [| split; reflexivity].
  apply setProps_inverted_bounds with (lo := lo) (hi := hi); trivial.
  - unfold assign_props; simpl. rewrite Hmin. reflexivity.
  - unfold assign_props; simpl. rewrite Hmax. reflexivity.
Qed.

Lemma setProps_min_above_max_witness :
  p_minValue ten_above_five = Some (ONum (num 10))
  /\ p_maxValue ten_above_five = Some (ONum (num 5))
  /\ Num.ltb (num 5) (num 10) = true
  /\ exists c',
      setProps (sample (sample_props INT OUndefined OUndefined OUndefined) VNull)
        ten_above_five =
        (c', Throw (Error
                      (lit "Error setting CharacteristicsProps for '"
                       ++ lit "Sample"
                       ++ lit "': 'minValue' cannot be greater or equal the 'maxValue'!")))
      /\ minValue (props c') = OUndefined
      /\ maxValue (props c') = OUndefined.
Proof.
  split; [reflexivity | split; [reflexivity | split; [reflexivity |]]].
  apply (setProps_min_above_max_throws_and_clears
           (sample (sample_props INT OUndefined OUndefined OUndefined) VNull)
           ten_above_five (num 10) (num 5));
    reflexivity.
Defined.

(** ** subscribe, unsubscribe *)

Lemma call_keeps_count_nonnegative (c : Characteristic) (op : SubscriptionCall) :
  0 <= subscriptions c -> 0 <= subscriptions (fst (call c op)).
Proof.
  destruct op; unfold call, subscribe, unsubscribe; simpl; lia.
Qed.

Lemma run_calls_keeps_count_nonnegative (ops : list SubscriptionCall) :
  forall c, 0 <= subscriptions c -> 0 <= subscriptions (fst (run_calls c ops)).
Proof.
  induction ops as [| op rest IH]; intros c Hc; simpl; [exact Hc |].
  pose proof (call_keeps_count_nonnegative c op Hc) as H1.
  destruct (call c op) as [c1 e1]. simpl in H1.
  specialize (IH c1 H1).
  destruct (run_calls c1 rest) as [c2 e2]. exact IH.
Qed.

Lemma subscribe_edge (c : Characteristic) :
  0 <= subscriptions c ->
  (snd (subscribe c) = [SUBSCRIBE]
   <-> subscriptions c = 0 /\ subscriptions (fst (subscribe c)) = 1)
  /\ (snd (subscribe c) = [SUBSCRIBE] \/ snd (subscribe c) = []).
Proof.
  intros Hc. unfold subscribe; simpl.
  destruct (Z.eqb_spec (subscriptions c) 0) as [E | E]; split.
  - split; [intros _; lia | reflexivity].
  - left; reflexivity.
  - split; [discriminate | intros [E0 _]; contradiction].
  - right; reflexivity.
Qed.

Lemma unsubscribe_edge (c : Characteristic) :
  0 <= subscriptions c ->
  (snd (unsubscribe c) = [UNSUBSCRIBE]
   <-> subscriptions c = 1 /\ subscriptions (fst (unsubscribe c)) = 0)
  /\ (snd (unsubscribe c) = [UNSUBSCRIBE] \/ snd (unsubscribe c) = []).
Proof.
  intros Hc. unfold unsubscribe; simpl.
  destruct (Z.eqb_spec (subscriptions c) 1) as [E | E]; split.
  - split; [intros _; lia | reflexivity].
  - left; reflexivity.
  - split; [discriminate | intros [E0 _]; contradiction].
  - right; reflexivity.
Qed.

(** C4.  From a subscriber count of 0, after any sequence of [subscribe]
    and [unsubscribe] calls: the count is not below 0; the next
    [subscribe] emits "subscribe", once, exactly when it takes the count
    from 0 to 1; the next [unsubscribe] emits "unsubscribe", once, exactly
    when it takes the count from 1 to 0; at count 0 it leaves the count at
    0 and emits nothing.  Subscribe, subscribe, unsubscribe, unsubscribe
    emits each event once; subscribe, unsubscribe, subscribe emits
    "subscribe", "unsubscribe", "subscribe". *)
Theorem subscription_edges_fire_on_transitions
  (c0 : Characteristic) (H0 : subscriptions c0 = 0) :
  (forall ops,
      let c := fst (run_calls c0 ops) in
      0 <= subscriptions c
      /\ (snd (subscribe c) = [SUBSCRIBE]
          <-> subscriptions c = 0 /\ subscriptions (fst (subscribe c)) = 1)
      /\ (snd (subscribe c) = [SUBSCRIBE] \/ snd (subscribe c) = [])
      /\ (snd (unsubscribe c) = [UNSUBSCRIBE]
          <-> subscriptions c = 1 /\ subscriptions (fst (unsubscribe c)) = 0)
      /\ (snd (unsubscribe c) = [UNSUBSCRIBE] \/ snd (unsubscribe c) = [])
      /\ (subscriptions c = 0 ->
          subscriptions (fst (unsubscribe c)) = 0 /\ snd (unsubscribe c) = []))
  /\ snd (run_calls c0
            [CallSubscribe; CallSubscribe; CallUnsubscribe; CallUnsubscribe])
     = [SUBSCRIBE; UNSUBSCRIBE]
  /\ snd (run_calls c0 [CallSubscribe; CallUnsubscribe; CallSubscribe])
     = [SUBSCRIBE; UNSUBSCRIBE; SUBSCRIBE].
Proof.
  split; [| split].
  - intros ops c.
    assert (Hc : 0 <= subscriptions c).
    { apply run_calls_keeps_count_nonnegative. lia. }
    destruct (subscribe_edge c Hc) as [Hs1 Hs2].
    destruct (unsubscribe_edge c Hc) as [Hu1 Hu2].
    split; [exact Hc |]. split; [exact Hs1 |]. split; [exact Hs2 |].
    split; [exact Hu1 |]. split; [exact Hu2 |].
    intros E. unfold unsubscribe; simpl. rewrite E. split; reflexivity.
  - unfold run_calls, call, subscribe, unsubscribe; simpl. rewrite H0. reflexivity.
  - unfold run_calls, call, subscribe, unsubscribe; simpl. rewrite H0. reflexivity.
Qed.

Lemma subscription_edges_witness :
  subscriptions (sample (sample_props BOOL OUndefined OUndefined OUndefined) VNull) = 0
  /\ snd (run_calls (sample (sample_props BOOL OUndefined OUndefined OUndefined) VNull)
            [CallSubscribe; CallSubscribe; CallUnsubscribe; CallUnsubscribe])
     = [SUBSCRIBE; UNSUBSCRIBE]
  /\ snd (run_calls (sample (sample_props BOOL OUndefined OUndefined OUndefined) VNull)
            [CallSubscribe; CallUnsubscribe; CallSubscribe])
     = [SUBSCRIBE; UNSUBSCRIBE; SUBSCRIBE].
Proof.
  split; [reflexivity |].
  apply (subscription_edges_fire_on_transitions
           (sample (sample_props BOOL OUndefined OUndefined OUndefined) VNull)
           eq_refl).
Defined.

(** ** handleGetRequest *)

(** C5.  With paired-read permission, not event-only and no "get"
    listener, [handleGetRequest] resolves with the cached value when the
    recorded status is success and rejects with the recorded status
    otherwise; nothing is emitted in either case. *)
Theorem get_without_listener_answers_from_cache
  (c : Characteristic) (session : Session) (context : Context)
  (Hread : includes (perms (props c)) PAIRED_READ = true)
  (Hevent : eventOnlyCharacteristic c = false)
  (Hnone : getListeners c = O) :
  (status c = Status.SUCCESS ->
   handleGetRequest c session context = ([], Resolved (value c)))
  /\ (status c <> Status.SUCCESS ->
      handleGetRequest c session context = ([], Rejected (status c))).
Proof.
  unfold handleGetRequest, Status.SUCCESS.
  rewrite Hread, Hevent, Hnone; simpl.
  split; intros Hs.
  - rewrite Hs. reflexivity.
  - destruct (Z.eqb_spec (status c) 0) as [E | E]; [contradiction | reflexivity].
Qed.

Lemma get_without_listener_witness :
  handleGetRequest
    (sample (sample_props INT OUndefined OUndefined OUndefined) (VNum (num 7)))
    1%nat 2%nat
  = ([], Resolved (VNum (num 7))).
Proof.
  apply (get_without_listener_answers_from_cache
           (sample (sample_props INT OUndefined OUndefined OUndefined)
              (VNum (num 7))) 1%nat 2%nat);
    reflexivity.
Defined.

(** ** handleSetRequest *)

Lemma validateValue_ignores_status (c : Characteristic) (s : Z) (v : Value) :
  validateValue (with_status c s) v = validateValue c v.
Proof. reflexivity. Qed.

Lemma handleSetRequest_direct (c : Characteristic) (v v' : Value)
  (session : Session) (context : Context) :
  validateValue c v = Ok v' ->
  setListeners c = O ->
  handleSetRequest c v session context =
  (with_value (with_status c Status.SUCCESS) v',
   Ok (if eventOnlyCharacteristic c || negb (strict_equal (value c) v')
       then [CHANGE (value c) v' context] else [],
       Resolved None, None)).
Proof.
  intros Hv Hn. unfold handleSetRequest.
  rewrite validateValue_ignores_status, Hv. simpl. rewrite Hn. reflexivity.
Qed.

Lemma handleSetRequest_listened (c : Characteristic) (v v' : Value)
  (session : Session) (context : Context) :
  validateValue c v = Ok v' ->
  setListeners c <> O ->
  handleSetRequest c v session context =
  (with_status c Status.SUCCESS,
   Ok ([SET v' context session], Pending,
       Some (mkSetRequest (value c) v' context))).
Proof.
  intros Hv Hn. unfold handleSetRequest.
  rewrite validateValue_ignores_status, Hv. simpl.
  destruct (Nat.eqb_spec (setListeners c) 0); [contradiction | reflexivity].
Qed.

(** C6.  Let the incoming value be coerced to [v'].  Without a "set"
    listener, [handleSetRequest] emits "change" when the characteristic is
    event-only or [v'] differs ([!==]) from the cached value, and emits
    nothing else: no "change" for a value equal to the cached one on a
    characteristic that is not event-only, exactly one on an event-only
    characteristic.  With a "set" listener the request is handed over, and
    the completion that reports success emits "change" under the same
    condition. *)
Theorem set_raises_change_when_event_only_or_changed
  (c : Characteristic) (v v' : Value) (session : Session) (context : Context)
  (Hv : validateValue c v = Ok v') :
  (setListeners c = O ->
   snd (handleSetRequest c v session context)
   = Ok (if eventOnlyCharacteristic c || negb (strict_equal (value c) v')
         then [CHANGE (value c) v' context] else [],
         Resolved None, None))
  /\ (setListeners c = O -> eventOnlyCharacteristic c = false ->
      strict_equal (value c) v' = true ->
      snd (handleSetRequest c v session context)
      = Ok ([], Resolved None, None))
  /\ (setListeners c = O -> eventOnlyCharacteristic c = true ->
      snd (handleSetRequest c v session context)
      = Ok ([CHANGE (value c) v' context], Resolved None, None))
  /\ (setListeners c <> O ->
      snd (handleSetRequest c v session context)
      = Ok ([SET v' context session], Pending,
            Some (mkSetRequest (value c) v' context))
      /\ forall (later : Characteristic) (writeResponse : Value),
          snd (fst (set_completion (mkSetRequest (value c) v' context)
                      later NoStatus writeResponse))
          = if eventOnlyCharacteristic later
               || negb (strict_equal (value c) v')
            then [CHANGE (value c) v' context] else []).
Proof.
  split; [| split; [| split]].
  - intros Hn. rewrite (handleSetRequest_direct c v v' session context Hv Hn).
    reflexivity.
  - intros Hn He Heq.
    rewrite (handleSetRequest_direct c v v' session context Hv Hn).
    rewrite He, Heq. reflexivity.
  - intros Hn He.
    rewrite (handleSetRequest_direct c v v' session context Hv Hn).
    rewrite He. reflexivity.
  - intros Hn. split.
    + rewrite (handleSetRequest_listened c v v' session context Hv Hn).
      reflexivity.
    + intros later writeResponse. unfold set_completion; simpl.
      destruct (negb (is_nullish writeResponse)
                && includes (perms (props later)) WRITE_RESPONSE);
        reflexivity.
Qed.

Lemma set_raises_change_witness :
  validateValue
    (sample (sample_props UINT8 OUndefined OUndefined OUndefined) (VNum (num 7)))
    (VNum (num 7)) = Ok (VNum (num 7))
  /\ snd (handleSetRequest
            (sample (sample_props UINT8 OUndefined OUndefined OUndefined)
               (VNum (num 7)))
            (VNum (num 7)) 1%nat 2%nat)
     = Ok ([], Resolved None, None).
Proof.
  split; [reflexivity |].
  apply (set_raises_change_when_event_only_or_changed
           (sample (sample_props UINT8 OUndefined OUndefined OUndefined)
              (VNum (num 7)))
           (VNum (num 7)) (VNum (num 7)) 1%nat 2%nat eq_refl);
    reflexivity.
Defined.

(** ** toHAP: the string format *)

Lemma encode_ascii (s : JSString) : ascii_only s -> Utf8.encode s = s.
Proof.
  induction 1 as [| c r Hc _ IH]; [reflexivity |].
  cbn [Utf8.encode]. destruct (Z.ltb_spec c 128); [| lia].
  rewrite IH. reflexivity.
Qed.

Lemma decode_ascii (s : JSString) : ascii_only s -> Utf8.decode s = s.
Proof.
  unfold Utf8.decode.
  induction 1 as [| c r Hc _ IH]; [reflexivity |].
  cbn [Utf8.decode_from]. unfold Utf8.lead.
  destruct (Z.ltb_spec c 128); [| lia].
  rewrite IH. reflexivity.
Qed.

Lemma ascii_only_firstn (n : nat) (s : JSString) :
  ascii_only s -> ascii_only (firstn n s).
Proof.
  intros H. revert n. unfold ascii_only.
  induction H as [| c r Hc _ IH]; intros [| n]; cbn [firstn];
    try apply Forall_nil.
  apply Forall_cons; [exact Hc | apply IH].
Qed.

Section StringProjection.

Variable toShortForm : JSString -> JSString -> result JSString.
Variable BASE_UUID : JSString.
Variables (c : Characteristic) (s : JSString) (type : JSString).

Hypothesis string_format : format (props c) = Some STRING.
Hypothesis cached : value c = VStr s.
Hypothesis polled : eventOnlyCharacteristic c = false.
Hypothesis no_minimum : not_null (minValue (props c)) = None.
Hypothesis no_maximum : not_null (maxValue (props c)) = None.
Hypothesis accepted : toShortForm (UUID c) BASE_UUID = Ok type.
Hypothesis readable : includes (perms (props c)) PAIRED_READ = true.

Lemma projected_string : projected_value c = VStr s.
Proof.
  unfold projected_value.
  rewrite no_minimum, no_maximum, string_format, polled, cached. reflexivity.
Qed.

(** At most 64 bytes: sent as it is, without [maxLen]. *)
Lemma toHAP_string_short :
  Utf8.byteLength s <= 64 ->
  exists hap,
    toHAP toShortForm BASE_UUID c None = Ok hap
    /\ hap_maxLen hap = None /\ hap_value hap = Some (VStr s).
Proof.
  unfold Utf8.byteLength. intros Hlen. unfold toHAP.
  rewrite accepted, projected_string, string_format, readable.
  cbn [bind string_block].
  destruct (Z.ltb_spec 256 (Z.of_nat (length (Utf8.encode s)))); [lia |].
  destruct (Z.ltb_spec 64 (Z.of_nat (length (Utf8.encode s)))); [lia |].
  eexists. split; [reflexivity |]. split; reflexivity.
Qed.

(** From 65 to 256 bytes: sent as it is, [maxLen] the byte length. *)
Lemma toHAP_string_medium :
  64 < Utf8.byteLength s <= 256 ->
  exists hap,
    toHAP toShortForm BASE_UUID c None = Ok hap
    /\ hap_maxLen hap = Some (of_Z (Utf8.byteLength s))
    /\ hap_value hap = Some (VStr s).
Proof.
  unfold Utf8.byteLength. intros Hlen. unfold toHAP.
  rewrite accepted, projected_string, string_format, readable.
  cbn [bind string_block].
  destruct (Z.ltb_spec 256 (Z.of_nat (length (Utf8.encode s)))); [lia |].
  destruct (Z.ltb_spec 64 (Z.of_nat (length (Utf8.encode s)))); [| lia].
  eexists. split; [reflexivity |]. split; reflexivity.
Qed.

(** Above 256 bytes: [maxLen] is 256 and the value is what the first 256
    bytes decode to. *)
Lemma toHAP_string_long :
  256 < Utf8.byteLength s ->
  exists hap,
    toHAP toShortForm BASE_UUID c None = Ok hap
    /\ hap_maxLen hap = Some (of_Z 256)
    /\ hap_value hap
       = Some (VStr (Utf8.decode (firstn 256 (Utf8.encode s)))).
Proof.
  unfold Utf8.byteLength. intros Hlen. unfold toHAP.
  rewrite accepted, projected_string, string_format, readable.
  cbn [bind string_block].
  destruct (Z.ltb_spec 256 (Z.of_nat (length (Utf8.encode s)))); [| lia].
  eexists. split; [reflexivity |]. split; reflexivity.
Qed.

(** For a string of ASCII characters these are exactly 256 bytes. *)
Lemma toHAP_string_long_ascii :
  ascii_only s -> 256 < Utf8.byteLength s ->
  Utf8.byteLength (Utf8.decode (firstn 256 (Utf8.encode s))) = 256.
Proof.
  unfold Utf8.byteLength. intros Hascii Hlen.
  rewrite (encode_ascii s Hascii) in *.
  rewrite (decode_ascii _ (ascii_only_firstn 256 s Hascii)).
  rewrite (encode_ascii _ (ascii_only_firstn 256 s Hascii)).
  rewrite length_firstn. lia.
Qed.

End StringProjection.

(** C7, where the code departs from it.  A string characteristic that
    allows 256 characters keeps the value made of 255 "a" and one
    U+00E9, 257 bytes long; [toHAP] declares [maxLen = 256] and cuts the
    bytes after the 256th, in the middle of the last character, which
    decodes to U+FFFD: the value sent is 258 bytes long. *)
Theorem toHAP_cut_inside_character_exceeds_256_bytes :
  validateValue (string_sample VNull) (VStr accented_name)
  = Ok (VStr accented_name)
  /\ Utf8.byteLength accented_name = 257
  /\ exists hap sent,
      toHAP keep_uuid [] (string_sample (VStr accented_name)) None = Ok hap
      /\ hap_maxLen hap = Some (of_Z 256)
      /\ hap_value hap = Some (VStr sent)
      /\ sent = repeat 97 255%nat ++ [0xFFFD]
      /\ Utf8.byteLength sent = 258.
Proof.
  split; [vm_compute; reflexivity |].
  split; [vm_compute; reflexivity |].
  eexists. eexists.
  split; [vm_compute; reflexivity |].
  split; [reflexivity |].
  split; [reflexivity |].
  split; vm_compute; reflexivity.
Qed.

(** ** toHAP: the "value" key *)

(** C8.  Whatever the characteristic and its cached value, a record
    [toHAP] produces has no "value" key when paired-read is not among the
    permissions, and none when the omit-values option is passed, whatever
    the permissions.  (A record is produced whenever the type identifier is
    accepted and the format is not the string format.) *)
Theorem toHAP_omits_value_key
  (toShortForm : JSString -> JSString -> result JSString)
  (BASE_UUID : JSString) (c : Characteristic) (opt : option ToHAPOptions) :
  (forall hap,
      toHAP toShortForm BASE_UUID c opt = Ok hap ->
      (includes (perms (props c)) PAIRED_READ = false -> hap_value hap = None)
      /\ (forall o, opt = Some o -> omitValues o = true ->
                    hap_value hap = None))
  /\ (forall type,
         toShortForm (UUID c) BASE_UUID = Ok type ->
         format (props c) <> Some STRING ->
         exists hap, toHAP toShortForm BASE_UUID c opt = Ok hap).
Proof.
  split.
  - intros hap. unfold toHAP.
    destruct (toShortForm (UUID c) BASE_UUID) as [type | e]; simpl;
      [| discriminate].
    match goal with
    | |- context [bind ?block _] => destruct block as [h | e]
    end; simpl; [| discriminate].
    intros Hhap. injection Hhap as Hhap. subst hap. split.
    + intros Hread. rewrite Hread. simpl.
      destruct opt as [[[]] |]; reflexivity.
    + intros o Ho Homit. subst opt. rewrite Homit.
      reflexivity.
  - intros type Htype Hformat. unfold toHAP. rewrite Htype. simpl.
    destruct (format (props c)) as [[] |]; simpl; try eauto.
    contradiction Hformat. reflexivity.
Qed.

Lemma toHAP_omits_value_key_witness :
  toHAP keep_uuid []
    (sample (mkProps (Some UINT8) [PAIRED_WRITE] None None OUndefined
               OUndefined OUndefined OUndefined OUndefined None None None)
       (VNum (num 7)))
    None
  = Ok (mkHap None (lit "00000025-0000-1000-8000-0026BB765291")
          [PAIRED_WRITE] (Some UINT8) None (lit "Sample")
          None None None None None None None)
  /\ hap_value
       (mkHap None (lit "00000025-0000-1000-8000-0026BB765291")
          [PAIRED_WRITE] (Some UINT8) None (lit "Sample")
          None None None None None None None) = None.
Proof.
  split; [reflexivity |].
  apply (proj1 (toHAP_omits_value_key keep_uuid []
                  (sample (mkProps (Some UINT8) [PAIRED_WRITE] None None
                             OUndefined OUndefined OUndefined OUndefined
                             OUndefined None None None)
                     (VNum (num 7)))
                  None)
           _ eq_refl);
    reflexivity.
Defined.

(** ** serialize, deserialize *)

Lemma new_Characteristic_valid (name uuid : JSString) (p : CharacteristicProps) :
  valid_bounds p ->
  new_Characteristic name uuid (Some p) =
  Ok (mkCharacteristic name uuid None VNull Status.SUCCESS false p 0 O O).
Proof.
  unfold valid_bounds, new_Characteristic, setProps. simpl.
  destruct p as [f pe u d lo hi st ml mdl vv vr ao]; simpl.
  destruct lo as [| | lo]; try reflexivity.
  destruct hi as [| | hi]; try reflexivity.
  intros H. rewrite H. reflexivity.
Qed.

Lemma new_Characteristic_invalid (name uuid : JSString)
  (p : CharacteristicProps) (lo hi : number) :
  minValue p = ONum lo -> maxValue p = ONum hi -> Num.ltb hi lo = true ->
  new_Characteristic name uuid (Some p) =
  Throw (Error (setProps_message name)).
Proof.
  intros Hlo Hhi Hgt. unfold new_Characteristic, setProps. simpl.
  destruct p as [f pe u d lo' hi' st ml mdl vv vr ao]; simpl in *.
  subst lo' hi'. rewrite Hgt. reflexivity.
Qed.

(** C9.  For a characteristic with valid constraints,
    [deserialize (serialize c)] is a characteristic with the same display
    name, UUID, constraints, cached value and event-only flag.
    [deserialize] goes through the constructor: it throws exactly when
    constructing from the serialized name, UUID and constraints throws,
    with the same error, which for a minimum above the maximum is the
    error of [setProps]. *)
Theorem deserialize_serialize_preserves_fields :
  (forall c : Characteristic,
      valid_bounds (props c) ->
      exists c',
        deserialize (serialize c) = Ok c'
        /\ displayName c' = displayName c
        /\ UUID c' = UUID c
        /\ props c' = props c
        /\ value c' = value c
        /\ eventOnlyCharacteristic c' = eventOnlyCharacteristic c)
  /\ (forall (json : SerializedCharacteristic) (e : JSError),
         deserialize json = Throw e
         <-> new_Characteristic (s_displayName json) (s_UUID json)
               (Some (s_props json)) = Throw e)
  /\ (forall (json : SerializedCharacteristic) (lo hi : number),
         minValue (s_props json) = ONum lo ->
         maxValue (s_props json) = ONum hi ->
         Num.ltb hi lo = true ->
         deserialize json = Throw (Error (setProps_message (s_displayName json)))).
Proof.
  split; [| split].
  - intros c Hvalid. unfold deserialize, serialize, clone; simpl.
    rewrite (new_Characteristic_valid _ _ _ Hvalid). simpl.
    eexists. split; [reflexivity |]. simpl. repeat split.
  - intros json e. unfold deserialize.
    destruct (new_Characteristic (s_displayName json) (s_UUID json)
                (Some (s_props json))) as [c | e']; simpl.
    + split; discriminate.
    + split; intros H; exact H.
  - intros json lo hi Hlo Hhi Hgt. unfold deserialize.
    rewrite (new_Characteristic_invalid _ _ _ lo hi Hlo Hhi Hgt).
    reflexivity.
Qed.

Lemma deserialize_serialize_witness :
  valid_bounds
    (sample_props FLOAT (ONum (num 0)) (ONum (num 100)) (ONum (Fin (mkDec 1 1))))
  /\ exists c',
      deserialize
        (serialize
           (sample (sample_props FLOAT (ONum (num 0)) (ONum (num 100))
                      (ONum (Fin (mkDec 1 1))))
              (VNum (Fin (mkDec 215 1)))))
      = Ok c'
      /\ displayName c' = lit "Sample"
      /\ UUID c' = lit "00000025-0000-1000-8000-0026BB765291"
      /\ props c' = sample_props FLOAT (ONum (num 0)) (ONum (num 100))
                      (ONum (Fin (mkDec 1 1)))
      /\ value c' = VNum (Fin (mkDec 215 1))
      /\ eventOnlyCharacteristic c' = false.
Proof.
  split; [reflexivity |].
  apply (proj1 deserialize_serialize_preserves_fields
           (sample (sample_props FLOAT (ONum (num 0)) (ONum (num 100))
                      (ONum (Fin (mkDec 1 1))))
              (VNum (Fin (mkDec 215 1))))).
  reflexivity.
Defined.

(** * Further properties *)

(** ** setProps, the constructor and the serialized form *)

(** X1.  Whatever the characteristic and the argument, [setProps] leaves
    bounds it would itself accept; it returns normally exactly when the
    bounds after the assignment are acceptable, and otherwise both are
    undefined afterwards. *)
Theorem setProps_never_leaves_inverted_bounds
  (c : Characteristic) (p : PartialProps) :
  valid_bounds (props (fst (setProps c p)))
  /\ (snd (setProps c p) = Ok tt
      <-> valid_bounds (assign_props (props c) p))
  /\ (snd (setProps c p) <> Ok tt ->
      minValue (props (fst (setProps c p))) = OUndefined
      /\ maxValue (props (fst (setProps c p))) = OUndefined).
Proof.
  unfold setProps, valid_bounds.
  destruct (minValue (assign_props (props c) p)) as [| | lo] eqn:Elo;
    destruct (maxValue (assign_props (props c) p)) as [| | hi] eqn:Ehi;
    cbn [fst snd props with_props]; rewrite ?Elo, ?Ehi.
  9: { destruct (Num.ltb hi lo) eqn:Elt; cbn [fst snd props with_props].
       - split; [exact I |]. split; [split; discriminate |].
         intros _. split; reflexivity.
       - rewrite Elo, Ehi. split; [exact Elt |]. split; [split; trivial |].
         intros H. contradiction H. reflexivity. }
  all: split; [exact I |]; split; [split; trivial |];
    intros H; contradiction H; reflexivity.
Qed.

Lemma setProps_never_leaves_witness :
  snd (setProps five_to_ten ten_above_five) <> Ok tt
  /\ minValue (props (fst (setProps five_to_ten ten_above_five))) = OUndefined
  /\ maxValue (props (fst (setProps five_to_ten ten_above_five))) = OUndefined.
Proof.
  assert (H : snd (setProps five_to_ten ten_above_five) <> Ok tt)
    by (vm_compute; discriminate).
  split; [exact H |].
  apply (setProps_never_leaves_inverted_bounds five_to_ten ten_above_five).
  exact H.
Defined.

Lemma ltb_irreflexive (n : number) : Num.ltb n n = false.
Proof.
  destruct n as [| [|] | d]; try reflexivity.
  unfold Num.ltb, dltb, dcompare. rewrite Z.compare_refl. reflexivity.
Qed.

(** X2.  [setProps] assigns every other key of its argument even when it
    throws; and it accepts a minimum equal to the maximum, although the
    message of its error speaks of "greater or equal". *)
Theorem setProps_assigns_other_keys_and_accepts_equal_bounds
  (c : Characteristic) (p : PartialProps) :
  (let after := props (fst (setProps c p)) in
   format after = or_keep (p_format p) (format (props c))
   /\ perms after = or_keep (p_perms p) (perms (props c))
   /\ unit_ after = or_keep (p_unit p) (unit_ (props c))
   /\ description after = or_keep (p_description p) (description (props c))
   /\ minStep after = or_keep (p_minStep p) (minStep (props c))
   /\ maxLen after = or_keep (p_maxLen p) (maxLen (props c))
   /\ maxDataLen after = or_keep (p_maxDataLen p) (maxDataLen (props c))
   /\ validValues after = or_keep (p_validValues p) (validValues (props c))
   /\ validValueRanges after
      = or_keep (p_validValueRanges p) (validValueRanges (props c))
   /\ adminOnlyAccess after
      = or_keep (p_adminOnlyAccess p) (adminOnlyAccess (props c)))
  /\ (forall n : number,
         minValue (assign_props (props c) p) = ONum n ->
         maxValue (assign_props (props c) p) = ONum n ->
         setProps c p = (with_props c (assign_props (props c) p), Ok tt)).
Proof.
  split.
  - unfold setProps.
    destruct (minValue (assign_props (props c) p)) as [| | lo];
      destruct (maxValue (assign_props (props c) p)) as [| | hi];
      try destruct (Num.ltb hi lo); cbn; repeat split.
  - intros n Hlo Hhi. unfold setProps. rewrite Hlo, Hhi, ltb_irreflexive.
    reflexivity.
Qed.

Lemma setProps_accepts_equal_bounds_witness :
  setProps five_to_ten
    (mkPartial None None None None (Some (ONum (num 7))) (Some (ONum (num 7)))
       None None None None None None)
  = (with_props five_to_ten
       (assign_props (props five_to_ten)
          (mkPartial None None None None (Some (ONum (num 7)))
             (Some (ONum (num 7))) None None None None None None)),
     Ok tt).
Proof.
  apply (proj2 (setProps_assigns_other_keys_and_accepts_equal_bounds
                  five_to_ten
                  (mkPartial None None None None (Some (ONum (num 7)))
                     (Some (ONum (num 7))) None None None None None None))
           (num 7));
    reflexivity.
Defined.

(** X3.  For a serialized form with acceptable bounds, deserializing and
    serializing again gives the same form back. *)
Theorem serialize_deserialize_is_identity
  (json : SerializedCharacteristic) (Hvalid : valid_bounds (s_props json)) :
  exists c, deserialize json = Ok c /\ serialize c = json.
Proof.
  unfold deserialize.
  rewrite (new_Characteristic_valid _ _ _ Hvalid). cbn [bind].
  eexists. split; [reflexivity |]. destruct json; reflexivity.
Qed.

Lemma serialize_deserialize_witness :
  valid_bounds (s_props (serialize tenths))
  /\ exists c, deserialize (serialize tenths) = Ok c
               /\ serialize c = serialize tenths.
Proof.
  split; [reflexivity |].
  apply (serialize_deserialize_is_identity (serialize tenths)). reflexivity.
Defined.

(** X4.  What the serialized form does not carry is reset: whatever the
    status, the id, the subscriber count and the listeners of a
    characteristic with acceptable bounds, the characteristic read back
    from its serialized form has the status "success", no id, no subscriber
    and no listener. *)
Theorem deserialize_resets_transient_state
  (c : Characteristic) (Hvalid : valid_bounds (props c)) :
  exists c',
    deserialize (serialize c) = Ok c'
    /\ status c' = Status.SUCCESS
    /\ iid c' = None
    /\ subscriptions c' = 0
    /\ getListeners c' = O
    /\ setListeners c' = O.
Proof.
  unfold deserialize, serialize, clone. cbn [s_displayName s_UUID s_props].
  rewrite (new_Characteristic_valid _ _ _ Hvalid). cbn [bind].
  eexists. split; [reflexivity |]. repeat split.
Qed.

Lemma deserialize_resets_witness :
  valid_bounds
    (props (mkCharacteristic (lit "Lamp") (lit "25") (Some (num 9))
              (VBool true) (-70402) false
              (sample_props BOOL OUndefined OUndefined OUndefined) 3 1 1))
  /\ exists c',
      deserialize
        (serialize
           (mkCharacteristic (lit "Lamp") (lit "25") (Some (num 9))
              (VBool true) (-70402) false
              (sample_props BOOL OUndefined OUndefined OUndefined) 3 1 1))
      = Ok c'
      /\ status c' = Status.SUCCESS
      /\ iid c' = None
      /\ subscriptions c' = 0
      /\ getListeners c' = O
      /\ setListeners c' = O.
Proof.
  split; [exact I |].
  apply (deserialize_resets_transient_state
           (mkCharacteristic (lit "Lamp") (lit "25") (Some (num 9))
              (VBool true) (-70402) false
              (sample_props BOOL OUndefined OUndefined OUndefined) 3 1 1)).
  exact I.
Defined.

(** ** subscribe, unsubscribe: the trace of edge events *)

Lemma run_calls_app (a b : list SubscriptionCall) : forall c,
  run_calls c (a ++ b)
  = (fst (run_calls (fst (run_calls c a)) b),
     snd (run_calls c a) ++ snd (run_calls (fst (run_calls c a)) b)).
Proof.
  induction a as [| op a IH]; intros c; cbn [app run_calls].
  - cbn [fst snd app]. destruct (run_calls c b); reflexivity.
  - destruct (call c op) as [c1 e1]. rewrite IH.
    destruct (run_calls c1 a) as [c2 e2]. cbn [fst snd].
    destruct (run_calls c2 b) as [c3 e3]. cbn [fst snd].
    rewrite app_assoc. reflexivity.
Qed.

Lemma odd_S (n : nat) : Nat.odd (S n) = negb (Nat.odd n).
Proof.
  rewrite Nat.odd_succ, <- Nat.negb_odd. reflexivity.
Qed.

Lemma run_calls_alternate (ops : list SubscriptionCall) : forall c,
  0 <= subscriptions c ->
  alternating (subscriptions c =? 0) (snd (run_calls c ops)) = true
  /\ Nat.odd (length (snd (run_calls c ops)))
     = xorb (0 <? subscriptions c) (0 <? subscriptions (fst (run_calls c ops))).
Proof.
  induction ops as [| op rest IH]; intros c Hc; cbn [run_calls].
  - cbn [fst snd alternating length Nat.odd]. split; [reflexivity |].
    destruct (0 <? subscriptions c); reflexivity.
  - destruct op; cbn [call]; unfold subscribe, unsubscribe.
    + specialize (IH (with_subscriptions c (subscriptions c + 1))).
      cbn [subscriptions with_subscriptions] in IH.
      destruct (run_calls (with_subscriptions c (subscriptions c + 1)) rest)
        as [c2 e2].
      cbn [fst snd] in *. destruct IH as [IH1 IH2]; [lia |].
      destruct (Z.eqb_spec (subscriptions c + 1) 0); [lia |].
      destruct (Z.ltb_spec 0 (subscriptions c + 1)); [| lia].
      destruct (Z.eqb_spec (subscriptions c) 0) as [E | E].
      * cbn [app alternating andb length]. rewrite IH1. split; [reflexivity |].
        rewrite odd_S, IH2.
        destruct (Z.ltb_spec 0 (subscriptions c)); [lia |].
        destruct (0 <? subscriptions c2); reflexivity.
      * cbn [app]. split; [exact IH1 |]. rewrite IH2.
        destruct (Z.ltb_spec 0 (subscriptions c)); [reflexivity | lia].
    + specialize (IH (with_subscriptions c (Z.max (subscriptions c - 1) 0))).
      cbn [subscriptions with_subscriptions] in IH.
      destruct (run_calls
                  (with_subscriptions c (Z.max (subscriptions c - 1) 0)) rest)
        as [c2 e2].
      cbn [fst snd] in *. destruct IH as [IH1 IH2]; [lia |].
      destruct (Z.eqb_spec (subscriptions c) 1) as [E | E].
      * rewrite E in *. cbn in IH1, IH2.
        cbn [app alternating negb andb length Z.eqb]. rewrite IH1.
        split; [reflexivity |].
        rewrite odd_S, IH2. destruct (0 <? subscriptions c2); reflexivity.
      * cbn [app]. destruct (Z.eqb_spec (subscriptions c) 0) as [E0 | E0].
        -- rewrite E0 in *. cbn in IH1, IH2. cbn. split; assumption.
        -- destruct (Z.eqb_spec (Z.max (subscriptions c - 1) 0) 0); [lia |].
           split; [exact IH1 |]. rewrite IH2.
           destruct (Z.ltb_spec 0 (Z.max (subscriptions c - 1) 0)); [| lia].
           destruct (Z.ltb_spec 0 (subscriptions c)); [reflexivity | lia].
Qed.

(** X5.  From a subscriber count of 0, the events of any sequence of
    [subscribe] and [unsubscribe] calls take turns, "subscribe" first, and
    subscribers remain exactly when an odd number of events was emitted,
    that is when the last one was "subscribe". *)
Theorem subscription_events_alternate
  (c0 : Characteristic) (H0 : subscriptions c0 = 0)
  (ops : list SubscriptionCall) :
  alternating true (snd (run_calls c0 ops)) = true
  /\ Nat.odd (length (snd (run_calls c0 ops)))
     = (0 <? subscriptions (fst (run_calls c0 ops))).
Proof.
  destruct (run_calls_alternate ops c0) as [H1 H2]; [lia |].
  rewrite H0 in *. cbn in H1, H2. split; assumption.
Qed.

Lemma subscription_events_alternate_witness :
  subscriptions five_to_ten = 0
  /\ alternating true
       (snd (run_calls five_to_ten
               [CallUnsubscribe; CallSubscribe; CallSubscribe;
                CallUnsubscribe; CallUnsubscribe; CallUnsubscribe;
                CallSubscribe]))
     = true.
Proof.
  split; [reflexivity |].
  apply (subscription_events_alternate five_to_ten eq_refl).
Defined.

Lemma run_subscribes (n : nat) : forall c,
  0 <= subscriptions c ->
  subscriptions (fst (run_calls c (repeat CallSubscribe n)))
  = subscriptions c + Z.of_nat n
  /\ snd (run_calls c (repeat CallSubscribe n))
     = if (subscriptions c =? 0) && negb (n =? 0)%nat then [SUBSCRIBE] else [].
Proof.
  induction n as [| n IH]; intros c Hc; cbn [repeat run_calls call].
  - cbn [fst snd]. rewrite andb_false_r. split; [lia | reflexivity].
  - unfold subscribe.
    specialize (IH (with_subscriptions c (subscriptions c + 1))).
    cbn [subscriptions with_subscriptions] in IH.
    destruct (run_calls (with_subscriptions c (subscriptions c + 1))
                (repeat CallSubscribe n)) as [c2 e2].
    cbn [fst snd] in *. destruct IH as [IH1 IH2]; [lia |].
    split; [lia |]. rewrite IH2.
    destruct (Z.eqb_spec (subscriptions c + 1) 0); [lia |].
    cbn [andb]. rewrite app_nil_r.
    destruct (subscriptions c =? 0); reflexivity.
Qed.

Lemma run_unsubscribes (m : nat) : forall c,
  0 <= subscriptions c ->
  subscriptions (fst (run_calls c (repeat CallUnsubscribe m)))
  = Z.max (subscriptions c - Z.of_nat m) 0
  /\ snd (run_calls c (repeat CallUnsubscribe m))
     = if (0 <? subscriptions c) && (subscriptions c <=? Z.of_nat m)
       then [UNSUBSCRIBE] else [].
Proof.
  induction m as [| m IH]; intros c Hc; cbn [repeat run_calls call].
  - cbn [fst snd]. split; [lia |].
    destruct (Z.ltb_spec 0 (subscriptions c));
      destruct (Z.leb_spec (subscriptions c) (Z.of_nat 0)); try reflexivity;
      lia.
  - unfold unsubscribe.
    specialize (IH (with_subscriptions c (Z.max (subscriptions c - 1) 0))).
    cbn [subscriptions with_subscriptions] in IH.
    destruct (run_calls
                (with_subscriptions c (Z.max (subscriptions c - 1) 0))
                (repeat CallUnsubscribe m)) as [c2 e2].
    cbn [fst snd] in *. destruct IH as [IH1 IH2]; [lia |].
    split; [lia |]. rewrite IH2.
    destruct (Z.eqb_spec (subscriptions c) 1) as [E | E];
      destruct (Z.ltb_spec 0 (Z.max (subscriptions c - 1) 0));
      destruct (Z.leb_spec (Z.max (subscriptions c - 1) 0) (Z.of_nat m));
      destruct (Z.ltb_spec 0 (subscriptions c));
      destruct (Z.leb_spec (subscriptions c) (Z.of_nat (S m)));
      cbn [andb app]; try reflexivity; lia.
Qed.

(** X6.  The counter is a reference count floored at 0: from 0, [n]
    subscribes followed by [m] unsubscribes leave [max (n - m) 0]
    subscribers; "subscribe" is emitted once if [n > 0], and "unsubscribe"
    once, after it, if moreover [m >= n]. *)
Theorem subscriptions_count_references
  (c0 : Characteristic) (H0 : subscriptions c0 = 0) (n m : nat) :
  subscriptions
    (fst (run_calls c0 (repeat CallSubscribe n ++ repeat CallUnsubscribe m)))
  = Z.max (Z.of_nat n - Z.of_nat m) 0
  /\ snd (run_calls c0 (repeat CallSubscribe n ++ repeat CallUnsubscribe m))
     = (if (n =? 0)%nat then [] else [SUBSCRIBE])
       ++ (if negb (n =? 0)%nat && (n <=? m)%nat then [UNSUBSCRIBE] else []).
Proof.
  rewrite run_calls_app. cbn [fst snd].
  destruct (run_subscribes n c0) as [S1 S2]; [lia |].
  destruct (run_unsubscribes m (fst (run_calls c0 (repeat CallSubscribe n))))
    as [U1 U2]; [lia |].
  rewrite U1, U2, S1, S2, H0. cbn [Z.eqb andb]. split; [f_equal; lia |].
  destruct (Nat.eqb_spec n 0) as [E | E]; cbn [negb andb app].
  - subst n. reflexivity.
  - destruct (Z.ltb_spec 0 (0 + Z.of_nat n)); [| lia].
    destruct (Z.leb_spec (0 + Z.of_nat n) (Z.of_nat m));
      destruct (Nat.leb_spec n m); cbn [andb]; try reflexivity; lia.
Qed.

Lemma subscriptions_count_witness :
  subscriptions five_to_ten = 0
  /\ subscriptions
       (fst (run_calls five_to_ten
               (repeat CallSubscribe 3 ++ repeat CallUnsubscribe 5)))
     = 0
  /\ snd (run_calls five_to_ten
            (repeat CallSubscribe 3 ++ repeat CallUnsubscribe 5))
     = [SUBSCRIBE; UNSUBSCRIBE].
Proof.
  split; [reflexivity |].
  apply (subscriptions_count_references five_to_ten eq_refl 3 5).
Defined.

(** ** validateValue: strings and the formats passed through *)

Lemma of_Z_ltb (a b : Z) : Num.ltb (of_Z a) (of_Z b) = (a <? b).
Proof.
  unfold Num.ltb, of_Z, dltb, dcompare, Z.ltb. cbn [mant scale].
  change (pow10 0) with 1. rewrite !Z.mul_1_r. reflexivity.
Qed.

Lemma string_limit_number (p : optnum) (limit : nat) :
  length_limit p = Some limit ->
  optnum_ToNumber
    (match p with
     | OUndefined => ONum (of_Z 64)
     | ONull => ONull
     | ONum n => ONum n
     end)
  = of_Z (Z.of_nat limit).
Proof.
  destruct p as [| | [| ? | [m [| sc]]]]; cbn; try discriminate.
  - intros H. injection H as H. subst limit. reflexivity.
  - destruct (Z.leb_spec 0 m) as [Hm | Hm]; [| discriminate].
    intros H. injection H as H. subst limit. rewrite Z2Nat.id by lia.
    reflexivity.
Qed.

(** X7.  For the string format with [maxLen] left out (64) or a natural
    number, [validateValue] returns a string: the first [maxLen] characters
    of the input as a string, the empty string for a falsy input
    ([null], [undefined], [false], 0, [NaN], [""]).  It is never longer
    than [maxLen], and a string within the limit is returned as it is. *)
Theorem string_coercion_truncates_to_maxLen
  (c : Characteristic) (v : Value) (limit : nat)
  (Hformat : format (props c) = Some STRING)
  (Hlimit : length_limit (maxLen (props c)) = Some limit) :
  exists s : JSString,
    validateValue c v = Ok (VStr s)
    /\ s = firstn limit (if truthy_value v then ToString v else [])
    /\ (length s <= limit)%nat
    /\ (forall t, v = VStr t -> (length t <= limit)%nat -> s = t).
Proof.
  set (text := if truthy_value v then ToString v else []).
  assert (Hval : validateValue c v = Ok (VStr (firstn limit text))).
  { unfold validateValue, format_switch. rewrite Hformat.
    unfold validate_string. cbv zeta.
    rewrite (string_limit_number _ _ Hlimit).
    assert (Htext : ToString (if truthy_value v then v else VStr []) = text).
    { unfold text. destruct (truthy_value v); reflexivity. }
    rewrite Htext, of_Z_ltb.
    destruct (Z.ltb_spec (Z.of_nat limit) (Z.of_nat (length text))) as [H | H].
    - unfold substring_to, of_Z, Num.trunc. cbn [mant scale].
      change (pow10 0) with 1. rewrite Z.quot_1_r, Nat2Z.id. reflexivity.
    - rewrite firstn_all2 by lia. reflexivity. }
  exists (firstn limit text). split; [exact Hval |]. split; [reflexivity |].
  split; [apply firstn_le_length |].
  intros t Hv Hlen. subst v. unfold text. cbn [truthy_value ToString].
  destruct t; [destruct limit; reflexivity |].
  apply firstn_all2. exact Hlen.
Qed.

Lemma string_coercion_witness :
  format (props (fresh_of STRING)) = Some STRING
  /\ length_limit (maxLen (props (fresh_of STRING))) = Some 64%nat
  /\ exists s : JSString,
      validateValue (fresh_of STRING) (VNum (Fin (mkDec 25 1)))
      = Ok (VStr s)
      /\ s = lit "2.5".
Proof.
  split; [reflexivity |]. split; [reflexivity |].
  destruct (string_coercion_truncates_to_maxLen (fresh_of STRING)
              (VNum (Fin (mkDec 25 1))) 64 eq_refl eq_refl)
    as [s [H1 [H2 _]]].
  exists s. split; [exact H1 | exact H2].
Defined.

Lemma substring_to_idempotent (s : JSString) (n : number) :
  substring_to (substring_to s n) n = substring_to s n.
Proof.
  destruct n as [| [|] | d]; cbn [substring_to]; try reflexivity.
  rewrite firstn_firstn, Nat.min_id. reflexivity.
Qed.

Lemma validate_string_idempotent (c : Characteristic) (v : Value) :
  validate_string c (validate_string c v) = validate_string c v.
Proof.
  unfold validate_string. cbv zeta.
  set (n := optnum_ToNumber _).
  set (text := ToString (if truthy_value v then v else VStr [])).
  assert (Hagain : forall r : JSString,
             ToString (if truthy_value (VStr r) then VStr r else VStr []) = r).
  { intros [| x r]; reflexivity. }
  destruct (Num.ltb n (of_Z (Z.of_nat (length text)))) eqn:Hcut;
    rewrite Hagain.
  - destruct (Num.ltb n (of_Z (Z.of_nat (length (substring_to text n)))));
      [rewrite substring_to_idempotent |]; reflexivity.
  - rewrite Hcut. reflexivity.
Qed.

Lemma null_if_undefined_idempotent (v : Value) :
  null_if_undefined (null_if_undefined v) = null_if_undefined v.
Proof. destruct v; reflexivity. Qed.

(** X8.  For every format that is not numeric (boolean, string, data,
    tlv8, array, dictionary, or none), whatever the constraints, a value
    [validateValue] has returned is returned unchanged when it is
    validated again. *)
Theorem validateValue_idempotent_on_other_formats
  (c : Characteristic) (v v' : Value)
  (Hformat : not_numeric c)
  (Hv : validateValue c v = Ok v') :
  validateValue c v' = Ok v'.
Proof.
  unfold not_numeric in Hformat. revert Hv.
  unfold validateValue, format_switch.
  destruct (format (props c)) as [[] |]; try discriminate Hformat;
    cbn [isNumericType]; intros Hv; injection Hv as Hv; subst v'.
  - destruct v as [| | [|] | [| [|] | d] | s]; try reflexivity.
    + cbn [loose_equal_true ToNumber].
      destruct (Num.strict_eqb (Fin d) (of_Z 1)); reflexivity.
    + cbn [loose_equal_true ToNumber].
      destruct (Num.strict_eqb (StringToNumber s) (of_Z 1)); reflexivity.
  - rewrite validate_string_idempotent. reflexivity.
  - rewrite null_if_undefined_idempotent. reflexivity.
  - rewrite null_if_undefined_idempotent. reflexivity.
  - rewrite null_if_undefined_idempotent. reflexivity.
  - rewrite null_if_undefined_idempotent. reflexivity.
  - rewrite null_if_undefined_idempotent. reflexivity.
Qed.

Lemma validateValue_idempotent_witness :
  not_numeric
    (sample (mkProps (Some STRING) [PAIRED_READ] None None OUndefined
               OUndefined OUndefined (ONum (Fin (mkDec 25 1))) OUndefined
               None None None) VNull)
  /\ validateValue
       (sample (mkProps (Some STRING) [PAIRED_READ] None None OUndefined
                  OUndefined OUndefined (ONum (Fin (mkDec 25 1))) OUndefined
                  None None None) VNull)
       (VStr (lit "abcdef"))
     = Ok (VStr (lit "ab"))
  /\ validateValue
       (sample (mkProps (Some STRING) [PAIRED_READ] None None OUndefined
                  OUndefined OUndefined (ONum (Fin (mkDec 25 1))) OUndefined
                  None None None) VNull)
       (VStr (lit "ab"))
     = Ok (VStr (lit "ab")).
Proof.
  split; [reflexivity |]. split; [reflexivity |].
  apply (validateValue_idempotent_on_other_formats
           (sample (mkProps (Some STRING) [PAIRED_READ] None None OUndefined
                      OUndefined OUndefined (ONum (Fin (mkDec 25 1)))
                      OUndefined None None None) VNull)
           (VStr (lit "abcdef")) (VStr (lit "ab")));
    reflexivity.
Defined.

(** ** validateValue: what the numeric formats reject *)

Lemma numeric_format_family (c : Characteristic) (r : Locals) :
  family_of c = Some r ->
  exists f, format (props c) = Some f /\ numeric_format f = true.
Proof.
  unfold family_of, format_switch, integer_family.
  destruct (format (props c)) as [f |]; [| discriminate].
  intros H. exists f. split; [reflexivity |].
  destruct f; try reflexivity; discriminate.
Qed.

(** X9.  For every numeric format the inputs [undefined], [null], [NaN],
    plus and minus infinity, and every string that does not begin (after
    blanks and a sign) with a digit give back the cached value, whatever
    the constraints. *)
Theorem numeric_coercion_rejects_by_returning_cache
  (c : Characteristic) (r : Locals) (Hfamily : family_of c = Some r) :
  validateValue c VUndefined = Ok (value c)
  /\ validateValue c VNull = Ok (value c)
  /\ validateValue c (VNum NaN) = Ok (value c)
  /\ (forall negative, validateValue c (VNum (Inf negative)) = Ok (value c))
  /\ (forall s, parseInt_str s = NaN -> validateValue c (VStr s) = Ok (value c)).
Proof.
  assert (H : forall v, (forall b, v <> VBool b) ->
                        Num.isNaN (parseInt v) = true ->
                        validateValue c v = Ok (value c)).
  { intros v Hb Hnan.
    destruct (family_of_switch c r Hfamily v) as [Hs Hn].
    unfold validateValue. rewrite Hs, Hn. unfold validate_numeric.
    rewrite Hnan. destruct v as [| | b | n | s]; try reflexivity.
    contradiction (Hb b). reflexivity. }
  repeat split; intros; apply H; try discriminate; try reflexivity.
  cbn [parseInt ToString]. rewrite H0. reflexivity.
Qed.

Lemma numeric_coercion_rejects_witness :
  family_of (sample (sample_props UINT8 OUndefined OUndefined OUndefined)
               (VNum (num 7)))
  = Some (mkLocals true (Some (num 0)) (Some (num 255)) (Some (num 1)))
  /\ validateValue
       (sample (sample_props UINT8 OUndefined OUndefined OUndefined)
          (VNum (num 7)))
       (VStr (lit "  +x1"))
     = Ok (VNum (num 7)).
Proof.
  split; [reflexivity |].
  apply (numeric_coercion_rejects_by_returning_cache
           (sample (sample_props UINT8 OUndefined OUndefined OUndefined)
              (VNum (num 7))) _ eq_refl).
  reflexivity.
Defined.

(** ** validateValue: when it throws, and what it never returns *)

Lemma stepDecimals_throws (step : number) (e : JSError) :
  stepDecimals step = Throw e ->
  e = TypeError
  /\ (step = NaN
      \/ exists s, step = Fin s /\ is_integer s = false
                    /\ exponent_notation s = true).
Proof.
  unfold stepDecimals.
  destruct step as [| negative | s]; cbn [floor_is_self].
  - intros H. vm_compute in H. injection H as H.
    split; [symmetry; exact H | left; reflexivity].
  - discriminate.
  - destruct (is_integer s) eqn:Eint; [discriminate |].
    destruct (exponent_notation s) eqn:Eexp.
    + intros H. split; [| right; exists s; repeat split; assumption].
      unfold fraction_length in H.
      destruct (nth_error _ _); [discriminate |]. congruence.
    + rewrite (plain_step_prints_its_decimals s Eint Eexp). discriminate.
Qed.

Lemma quantize_throws (v : Value) (step : number) (e : JSError) :
  quantize v step = Throw e -> stepDecimals step = Throw e.
Proof.
  unfold quantize. destruct (stepDecimals step) as [dp | e']; cbn [bind].
  - intros H. discriminate H.
  - intros H. injection H as H. subst e'. reflexivity.
Qed.

Lemma bind_throws {A B} (m : result A) (k : A -> result B) (e : JSError) :
  bind m k = Throw e ->
  m = Throw e \/ exists a, m = Ok a /\ k a = Throw e.
Proof.
  destruct m as [a | e']; cbn [bind]; intros H.
  - right. exists a. split; [reflexivity | exact H].
  - left. injection H as H. subst e'. reflexivity.
Qed.

Lemma validate_numeric_throws (c : Characteristic) (r : Locals) (v : Value)
  (e : JSError) :
  validate_numeric c r v = Throw e ->
  exists step,
    override (minStep (props c)) (minStep_resolved r) = Some step
    /\ stepDecimals step = Throw e.
Proof.
  unfold validate_numeric.
  assert (Hrest : forall w,
             w = v -> (forall b, v <> VBool b) ->
             (if Num.isNaN (parseInt w) then Ok (value c)
              else
                bind
                  (match override (minStep (props c)) (minStep_resolved r) with
                   | Some step =>
                       quantize
                         (clamp_high
                            (clamp_low w
                               (override (minValue (props c))
                                  (minValue_resolved r)))
                            (override (maxValue (props c))
                               (maxValue_resolved r)))
                         step
                   | None =>
                       Ok (clamp_high
                             (clamp_low w
                                (override (minValue (props c))
                                   (minValue_resolved r)))
                             (override (maxValue (props c))
                                (maxValue_resolved r)))
                   end)
                  (fun newValue =>
                     if match validValues (props c) with
                        | Some l => negb (array_includes l newValue)
                        | None => false
                        end
                     then Ok (value c)
                     else
                       Ok (null_if_undefined
                             match validValueRanges (props c) with
                             | Some range =>
                                 clamp_high
                                   (clamp_low newValue (nth_error range 0))
                                   (nth_error range 1)
                             | None => newValue
                             end))) = Throw e ->
             exists step,
               override (minStep (props c)) (minStep_resolved r) = Some step
               /\ stepDecimals step = Throw e).
  { intros w _ _. destruct (Num.isNaN (parseInt w)); [discriminate |].
    intros H. apply bind_throws in H. destruct H as [H | [a [_ H]]].
    - destruct (override (minStep (props c)) (minStep_resolved r))
        as [step |]; [| discriminate].
      exists step. split; [reflexivity |]. apply quantize_throws in H.
      exact H.
    - destruct (match validValues (props c) with
                | Some l => negb (array_includes l a)
                | None => false
                end); discriminate. }
  destruct v as [| | [|] | n | s]; try discriminate;
    apply Hrest; try reflexivity; discriminate.
Qed.

(** X10.  [validateValue] throws in one situation only: the format is
    numeric and the declared [minStep] is a number that is not integral
    and prints in exponent notation (its magnitude is below 1e-6 or at
    least 1e21); what it throws then is a TypeError. *)
Theorem validateValue_throws_only_for_exponent_steps
  (c : Characteristic) (v : Value) (e : JSError)
  (Hthrow : validateValue c v = Throw e) :
  e = TypeError
  /\ (exists f, format (props c) = Some f /\ numeric_format f = true)
  /\ exists s, minStep (props c) = ONum (Fin s)
               /\ is_integer s = false
               /\ exponent_notation s = true.
Proof.
  revert Hthrow. unfold validateValue.
  destruct (format_switch c v) as [v0 | r] eqn:Hs; [discriminate |].
  destruct (isNumericType r) eqn:Hn; [| discriminate].
  destruct (numeric_locals c v r Hs Hn) as [_ [_ Hstep]].
  assert (Hfam : family_of c = Some r).
  { revert Hs Hn. unfold family_of, format_switch, integer_family.
    destruct (format (props c)) as [[] |]; intros H; try discriminate;
      injection H as H; subst r; cbn; intros Hn; try discriminate;
      reflexivity. }
  intros H. apply validate_numeric_throws in H.
  destruct H as [step [Hover Hdec]].
  destruct (stepDecimals_throws step e Hdec)
    as [He [Hnan | [s [Hs' [Hint Hexp]]]]].
  { subst step. unfold override, declared in Hover.
    destruct (minStep (props c)) as [| | [| ? | d]];
      try (destruct Hstep as [Hr | Hr]; rewrite Hr in Hover; discriminate).
    cbn [Num.truthy Num.isNaN] in Hover.
    destruct (negb (mant d =? 0) && negb false); [discriminate |].
    destruct Hstep as [Hr | Hr]; rewrite Hr in Hover; discriminate. }
  split; [exact He |].
  split; [exact (numeric_format_family c r Hfam) |].
  exists s. split; [| split; assumption].
  subst step. unfold override, declared in Hover.
  destruct (minStep (props c)) as [| | n].
  - destruct Hstep as [Hr | Hr]; rewrite Hr in Hover; [discriminate |].
    injection Hover as Hover. subst s. discriminate Hint.
  - destruct Hstep as [Hr | Hr]; rewrite Hr in Hover; [discriminate |].
    injection Hover as Hover. subst s. discriminate Hint.
  - destruct (Num.truthy n && negb (Num.isNaN n)).
    + injection Hover as Hover. subst n. reflexivity.
    + destruct Hstep as [Hr | Hr]; rewrite Hr in Hover; [discriminate |].
      injection Hover as Hover. subst s. discriminate Hint.
Qed.

Lemma validateValue_throws_witness :
  validateValue
    (sample (sample_props FLOAT OUndefined OUndefined (ONum (Fin (mkDec 1 7))))
       VNull)
    (VNum (num 5))
  = Throw TypeError
  /\ exists s,
      minStep (props (sample (sample_props FLOAT OUndefined OUndefined
                                (ONum (Fin (mkDec 1 7)))) VNull))
      = ONum (Fin s)
      /\ is_integer s = false
      /\ exponent_notation s = true.
Proof.
  split; [reflexivity |].
  apply (validateValue_throws_only_for_exponent_steps
           (sample (sample_props FLOAT OUndefined OUndefined
                      (ONum (Fin (mkDec 1 7)))) VNull)
           (VNum (num 5)) TypeError eq_refl).
Defined.

Lemma null_if_undefined_defined (v : Value) : null_if_undefined v <> VUndefined.
Proof. destruct v; discriminate. Qed.

Lemma validateValue_defined (c : Characteristic) (v v' : Value) :
  value c <> VUndefined -> validateValue c v = Ok v' -> v' <> VUndefined.
Proof.
  intros Hc. unfold validateValue.
  destruct (format_switch c v) as [v0 | r] eqn:Hs.
  - intros H. injection H as H. subst v0. revert Hs.
    unfold format_switch, integer_family.
    destruct (format (props c)) as [[] |]; intros H; try discriminate H;
      injection H as H; subst v'; try apply null_if_undefined_defined;
      try discriminate.
    unfold validate_string. cbv zeta. destruct (Num.ltb _ _); discriminate.
  - destruct (isNumericType r);
      [| intros H; injection H as H; subst v';
         apply null_if_undefined_defined].
    unfold validate_numeric.
    assert (Hrest : forall w,
               (if Num.isNaN (parseInt w) then Ok (value c)
                else
                  bind
                    (match override (minStep (props c)) (minStep_resolved r) with
                     | Some step =>
                         quantize
                           (clamp_high
                              (clamp_low w
                                 (override (minValue (props c))
                                    (minValue_resolved r)))
                              (override (maxValue (props c))
                                 (maxValue_resolved r)))
                           step
                     | None =>
                         Ok (clamp_high
                               (clamp_low w
                                  (override (minValue (props c))
                                     (minValue_resolved r)))
                               (override (maxValue (props c))
                                  (maxValue_resolved r)))
                     end)
                    (fun newValue =>
                       if match validValues (props c) with
                          | Some l => negb (array_includes l newValue)
                          | None => false
                          end
                       then Ok (value c)
                       else
                         Ok (null_if_undefined
                               match validValueRanges (props c) with
                               | Some range =>
                                   clamp_high
                                     (clamp_low newValue (nth_error range 0))
                                     (nth_error range 1)
                               | None => newValue
                               end))) = Ok v' ->
               v' <> VUndefined).
    { intros w. destruct (Num.isNaN (parseInt w)).
      - intros H. injection H as H. subst v'. exact Hc.
      - match goal with
        | |- bind ?m _ = _ -> _ => destruct m as [a | e]
        end; cbn [bind]; [| discriminate].
        destruct (match validValues (props c) with
                  | Some l => negb (array_includes l a)
                  | None => false
                  end); intros H; injection H as H; subst v';
          [exact Hc | apply null_if_undefined_defined]. }
    destruct v as [| | [|] | n | s]; try apply Hrest;
      intros H; injection H as H; subst v'; discriminate.
Qed.

(** X11.  [validateValue] returns [undefined] only if the cached value is
    [undefined]; so a cached value that is not [undefined] stays so through
    [handleSetRequest], with or without a "set" listener, and through the
    completion of the request. *)
Theorem cached_value_never_becomes_undefined
  (c : Characteristic) (v : Value) (session : Session) (context : Context)
  (Hc : value c <> VUndefined) :
  (forall v', validateValue c v = Ok v' -> v' <> VUndefined)
  /\ value (fst (handleSetRequest c v session context)) <> VUndefined
  /\ (forall events promise k later st writeResponse,
         snd (handleSetRequest c v session context)
         = Ok (events, promise, Some k) ->
         value later <> VUndefined ->
         value (fst (fst (set_completion k later st writeResponse)))
         <> VUndefined).
Proof.
  split; [intros v'; apply validateValue_defined; exact Hc |].
  destruct (validateValue c v) as [v' | e] eqn:Hv.
  - pose proof (validateValue_defined c v v' Hc Hv) as Hv'.
    destruct (Nat.eq_dec (setListeners c) 0) as [Hn | Hn].
    + rewrite (handleSetRequest_direct c v v' session context Hv Hn).
      cbn [fst snd value with_value]. split; [exact Hv' |].
      intros ? ? ? ? ? ? H. discriminate H.
    + rewrite (handleSetRequest_listened c v v' session context Hv Hn).
      cbn [fst snd value with_status]. split; [exact Hc |].
      intros events promise k later st writeResponse H Hlater.
      injection H as _ _ H. subst k.
      unfold set_completion. cbn [captured_value captured_oldValue].
      assert (Hok : value
                      (fst (fst
                         (let c0 := with_status later Status.SUCCESS in
                          let '(c1, settled) :=
                            if negb (is_nullish writeResponse)
                               && includes (perms (props c0)) WRITE_RESPONSE
                            then (with_value c0 writeResponse,
                                  @Resolved (option Value) (Some writeResponse))
                            else (with_value c0 v', Resolved None) in
                          (c1,
                           if change_due c1 (value c) v'
                           then [CHANGE (value c) v' context] else [],
                           settled)))) <> VUndefined).
      { cbv zeta.
        destruct (negb (is_nullish writeResponse)
                  && includes (perms (props (with_status later Status.SUCCESS)))
                       WRITE_RESPONSE) eqn:E; cbn [fst snd value with_value].
        - destruct writeResponse; try discriminate; discriminate E.
        - exact Hv'. }
      destruct st as [| code | message]; cbn [fst snd value with_status].
      * exact Hok.
      * destruct (code =? 0); [exact Hok | exact Hlater].
      * exact Hlater.
  - unfold handleSetRequest. rewrite validateValue_ignores_status, Hv.
    cbn [fst snd value with_status]. split; [exact Hc |].
    intros ? ? ? ? ? ? H. discriminate H.
Qed.

Lemma cached_value_witness :
  value five_to_ten <> VUndefined
  /\ value (fst (handleSetRequest five_to_ten VUndefined 1%nat 2%nat))
     <> VUndefined.
Proof.
  split; [discriminate |].
  apply (cached_value_never_becomes_undefined five_to_ten VUndefined
           1%nat 2%nat).
  discriminate.
Defined.

(** ** validateValue: the step *)












(** ** handleSetRequest, its completion and handleGetRequest together *)

(** X14.  Without listeners, what a "set" request stores is what the next
    "get" request on a readable, polled characteristic resolves with: the
    coerced value, even when a failure status was recorded before the
    "set". *)
Theorem get_after_set_resolves_with_coerced_value
  (c : Characteristic) (v v' : Value)
  (session session' : Session) (context context' : Context)
  (Hv : validateValue c v = Ok v')
  (Hset : setListeners c = O)
  (Hget : getListeners c = O)
  (Hread : includes (perms (props c)) PAIRED_READ = true)
  (Hpolled : eventOnlyCharacteristic c = false) :
  handleGetRequest (fst (handleSetRequest c v session context))
    session' context'
  = ([], Resolved v').
Proof.
  rewrite (handleSetRequest_direct c v v' session context Hv Hset).
  cbn [fst]. unfold handleGetRequest.
  cbn [props perms eventOnlyCharacteristic getListeners status value
       with_value with_status].
  rewrite Hread, Hpolled, Hget. reflexivity.
Qed.

Lemma get_after_set_witness :
  validateValue
    (with_status (sample (sample_props UINT8 OUndefined OUndefined OUndefined)
                    (VNum (num 7))) (-70402))
    (VNum (Fin (mkDec 3009 1)))
  = Ok (VNum (num 255))
  /\ handleGetRequest
       (fst (handleSetRequest
               (with_status
                  (sample (sample_props UINT8 OUndefined OUndefined OUndefined)
                     (VNum (num 7))) (-70402))
               (VNum (Fin (mkDec 3009 1))) 1%nat 2%nat))
       3%nat 4%nat
     = ([], Resolved (VNum (num 255))).
Proof.
  split; [reflexivity |].
  apply (get_after_set_resolves_with_coerced_value
           (with_status
              (sample (sample_props UINT8 OUndefined OUndefined OUndefined)
                 (VNum (num 7))) (-70402))
           (VNum (Fin (mkDec 3009 1))) (VNum (num 255))
           1%nat 3%nat 2%nat 4%nat);
    reflexivity.
Defined.

(** X15.  When the listener completes a "set" request with a status code
    other than 0, the promise is rejected with that code, nothing is
    emitted, the cached value stays what it was and the code is recorded;
    the next "get" request without listener on a readable, polled
    characteristic is then rejected with the same code. *)
Theorem failed_set_completion_sticks
  (k : SetRequest) (c : Characteristic) (code : Z) (writeResponse : Value)
  (session : Session) (context : Context)
  (Hcode : code <> 0)
  (Hget : getListeners c = O)
  (Hread : includes (perms (props c)) PAIRED_READ = true)
  (Hpolled : eventOnlyCharacteristic c = false) :
  set_completion k c (StatusCode code) writeResponse
  = (with_status c code, [], Rejected code)
  /\ value (with_status c code) = value c
  /\ handleGetRequest (with_status c code) session context
     = ([], Rejected code).
Proof.
  split; [| split; [reflexivity |]].
  - unfold set_completion.
    destruct (Z.eqb_spec code 0); [contradiction | reflexivity].
  - unfold handleGetRequest.
    cbn [props perms eventOnlyCharacteristic getListeners status value
         with_status].
    rewrite Hread, Hpolled, Hget.
    destruct (Z.eqb_spec code 0); [contradiction | reflexivity].
Qed.

Lemma failed_set_completion_witness :
  (-70408) <> 0
  /\ set_completion (mkSetRequest (VNum (num 7)) (VNum (num 9)) 2%nat)
       (sample (sample_props UINT8 OUndefined OUndefined OUndefined)
          (VNum (num 7)))
       (StatusCode (-70408)) VUndefined
     = (with_status
          (sample (sample_props UINT8 OUndefined OUndefined OUndefined)
             (VNum (num 7))) (-70408),
        [], Rejected (-70408)).
Proof.
  split; [discriminate |].
  apply (failed_set_completion_sticks
           (mkSetRequest (VNum (num 7)) (VNum (num 9)) 2%nat)
           (sample (sample_props UINT8 OUndefined OUndefined OUndefined)
              (VNum (num 7)))
           (-70408) VUndefined 1%nat 2%nat);
    try reflexivity; discriminate.
Defined.

(** X16.  When the listener completes a "set" request successfully with a
    write response that is not [null] or [undefined]: with the
    write-response permission the response becomes the cached value and
    the payload of the promise, while the "change" event, raised under the
    usual condition, still reports the requested value as the new value;
    without that permission the response is dropped, the requested value
    is cached and the promise carries no payload. *)
Theorem set_completion_write_response
  (k : SetRequest) (c : Characteristic) (writeResponse : Value)
  (Hresponse : is_nullish writeResponse = false) :
  let change :=
    if eventOnlyCharacteristic c
       || negb (strict_equal (captured_oldValue k) (captured_value k))
    then [CHANGE (captured_oldValue k) (captured_value k)
            (captured_context k)]
    else [] in
  (includes (perms (props c)) WRITE_RESPONSE = true ->
   set_completion k c NoStatus writeResponse
   = (with_value (with_status c Status.SUCCESS) writeResponse,
      change, Resolved (Some writeResponse)))
  /\ (includes (perms (props c)) WRITE_RESPONSE = false ->
      set_completion k c NoStatus writeResponse
      = (with_value (with_status c Status.SUCCESS) (captured_value k),
         change, Resolved None)).
Proof.
  intros change. unfold set_completion.
  cbn [props perms with_status]. rewrite Hresponse. cbn [negb andb].
  split; intros Hperm; rewrite Hperm; reflexivity.
Qed.

Lemma set_completion_write_response_witness :
  is_nullish (VNum (num 1)) = false
  /\ set_completion (mkSetRequest (VNum (num 7)) (VNum (num 9)) 2%nat)
       (sample (mkProps (Some UINT8) [PAIRED_WRITE; WRITE_RESPONSE] None None
                  OUndefined OUndefined OUndefined OUndefined OUndefined
                  None None None) (VNum (num 7)))
       NoStatus (VNum (num 1))
     = (with_value
          (with_status
             (sample (mkProps (Some UINT8) [PAIRED_WRITE; WRITE_RESPONSE]
                        None None OUndefined OUndefined OUndefined OUndefined
                        OUndefined None None None) (VNum (num 7)))
             Status.SUCCESS)
          (VNum (num 1)),
        [CHANGE (VNum (num 7)) (VNum (num 9)) 2%nat],
        Resolved (Some (VNum (num 1)))).
Proof.
  split; [reflexivity |].
  apply (set_completion_write_response
           (mkSetRequest (VNum (num 7)) (VNum (num 9)) 2%nat)
           (sample (mkProps (Some UINT8) [PAIRED_WRITE; WRITE_RESPONSE] None
                      None OUndefined OUndefined OUndefined OUndefined
                      OUndefined None None None) (VNum (num 7)))
           (VNum (num 1)) eq_refl).
  reflexivity.
Defined.

(** ** toHAP: further properties of the record *)

Lemma string_block_maxLen (value : Value) (hap hap' : HapCharacteristic) :
  hap_maxLen hap = None ->
  string_block value hap = Ok hap' ->
  match hap_maxLen hap' with
  | None => True
  | Some n => exists k : Z, n = of_Z k /\ 64 < k <= 256
  end.
Proof.
  intros Hnone. unfold string_block.
  destruct value as [| | b | n | s]; try discriminate.
  destruct (Z.ltb_spec 256 (Z.of_nat (length (Utf8.encode s)))) as [H1 | H1].
  - intros H. injection H as H. subst hap'. cbn [hap_maxLen set_hap_maxLen].
    exists 256. split; [reflexivity | lia].
  - destruct (Z.ltb_spec 64 (Z.of_nat (length (Utf8.encode s)))) as [H2 | H2];
      intros H; injection H as H; subst hap'.
    + cbn [hap_maxLen set_hap_maxLen]. eexists. split; [reflexivity | lia].
    + rewrite Hnone. exact I.
Qed.

(** X17.  In every record [toHAP] produces, [maxLen] is absent or a whole
    number from 65 to 256, and it is absent for every format but the
    string format: the [maxLen] of the constraints is never copied to the
    wire. *)
Theorem toHAP_maxLen_is_absent_or_65_to_256
  (toShortForm : JSString -> JSString -> result JSString)
  (BASE_UUID : JSString) (c : Characteristic) (opt : option ToHAPOptions)
  (hap : HapCharacteristic)
  (Hhap : toHAP toShortForm BASE_UUID c opt = Ok hap) :
  match hap_maxLen hap with
  | None => True
  | Some n => exists k : Z, n = of_Z k /\ 64 < k <= 256
  end
  /\ (format (props c) <> Some STRING -> hap_maxLen hap = None).
Proof.
  revert Hhap. unfold toHAP.
  destruct (toShortForm (UUID c) BASE_UUID) as [type | e]; cbn [bind];
    [| discriminate].
  match goal with
  | |- context [bind ?block _] => destruct block as [h | e] eqn:Hblock
  end; cbn [bind]; [| discriminate].
  intros H. injection H as H.
  assert (Hlen : hap_maxLen hap = hap_maxLen h).
  { subst hap.
    destruct (negb (includes (perms (props c)) PAIRED_READ));
      destruct opt as [[[]] |]; reflexivity. }
  rewrite Hlen. clear H Hlen. split.
  - destruct (format (props c)) as [[] |];
      try (injection Hblock as Hblock; subst h; exact I).
    eapply string_block_maxLen; [| exact Hblock]. reflexivity.
  - intros Hformat.
    destruct (format (props c)) as [[] |];
      try (injection Hblock as Hblock; subst h; reflexivity).
    contradiction Hformat. reflexivity.
Qed.

Lemma toHAP_maxLen_witness :
  toHAP keep_uuid [] (string_sample (VStr (repeat 97 100%nat))) None
  = Ok (mkHap None (lit "00000025-0000-1000-8000-0026BB765291")
          [PAIRED_READ; PAIRED_WRITE; NOTIFY] (Some STRING)
          (Some (VStr (repeat 97 100%nat))) (lit "Sample")
          None None None None None None (Some (of_Z 100)))
  /\ exists k : Z, of_Z 100 = of_Z k /\ 64 < k <= 256.
Proof.
  split; [vm_compute; reflexivity |].
  apply (toHAP_maxLen_is_absent_or_65_to_256 keep_uuid []
           (string_sample (VStr (repeat 97 100%nat))) None
           (mkHap None (lit "00000025-0000-1000-8000-0026BB765291")
              [PAIRED_READ; PAIRED_WRITE; NOTIFY] (Some STRING)
              (Some (VStr (repeat 97 100%nat))) (lit "Sample")
              None None None None None None (Some (of_Z 100)))).
  vm_compute. reflexivity.
Defined.

Lemma projected_value_not_string (c : Characteristic) :
  format (props c) = Some STRING ->
  eventOnlyCharacteristic c = true \/ (forall s, value c <> VStr s) ->
  forall s, projected_value c <> VStr s.
Proof.
  intros Hformat Hcase s. unfold projected_value. rewrite Hformat.
  destruct (eventOnlyCharacteristic c); [discriminate |].
  destruct Hcase as [Hcase | Hcase]; [discriminate |].
  destruct (not_null (minValue (props c))) as [lo |];
    destruct (not_null (maxValue (props c))) as [hi |];
    repeat match goal with
           | |- context [if ?b then _ else _] => destruct b
           end;
    try discriminate; apply Hcase.
Qed.

(** X18.  For the string format [toHAP] needs a cached string: when the
    characteristic is event-only, or its cached value is not a string (as
    the [null] of a fresh characteristic), and the type identifier is
    accepted, [toHAP] throws a TypeError, whatever the permissions and the
    options. *)
Theorem toHAP_string_format_throws_without_string
  (toShortForm : JSString -> JSString -> result JSString)
  (BASE_UUID : JSString) (c : Characteristic) (opt : option ToHAPOptions)
  (type : JSString)
  (Hformat : format (props c) = Some STRING)
  (Htype : toShortForm (UUID c) BASE_UUID = Ok type)
  (Hcase : eventOnlyCharacteristic c = true \/ (forall s, value c <> VStr s)) :
  toHAP toShortForm BASE_UUID c opt = Throw TypeError.
Proof.
  pose proof (projected_value_not_string c Hformat Hcase) as Hp.
  unfold toHAP. rewrite Htype, Hformat. cbn [bind].
  destruct (projected_value c) as [| | b | n | s]; try reflexivity.
  contradiction (Hp s). reflexivity.
Qed.

Lemma toHAP_string_format_throws_witness :
  format (props (fresh_of STRING)) = Some STRING
  /\ keep_uuid (UUID (fresh_of STRING)) [] = Ok (UUID (fresh_of STRING))
  /\ toHAP keep_uuid [] (fresh_of STRING) None = Throw TypeError.
Proof.
  split; [reflexivity |]. split; [reflexivity |].
  apply (toHAP_string_format_throws_without_string keep_uuid []
           (fresh_of STRING) None (UUID (fresh_of STRING)) eq_refl eq_refl).
  right. discriminate.
Defined.

(** X19.  For the float format without [minStep], a cached finite number
    and declared bounds that are finite or absent, the minimum not above
    the maximum: the value in the record of a polled, readable
    characteristic is a number within the declared bounds, a bound of 0
    included. *)
Theorem toHAP_float_value_within_declared_bounds
  (toShortForm : JSString -> JSString -> result JSString)
  (BASE_UUID : JSString) (c : Characteristic) (type : JSString) (x : dec)
  (Hformat : format (props c) = Some FLOAT)
  (Hstep : not_null (minStep (props c)) = None)
  (Hvalue : value c = VNum (Fin x))
  (Hpolled : eventOnlyCharacteristic c = false)
  (Hread : includes (perms (props c)) PAIRED_READ = true)
  (Htype : toShortForm (UUID c) BASE_UUID = Ok type)
  (Hlo : finite_bound (not_null (minValue (props c))))
  (Hhi : finite_bound (not_null (maxValue (props c))))
  (Hordered : ordered (not_null (minValue (props c)))
                (not_null (maxValue (props c)))) :
  exists hap y,
    toHAP toShortForm BASE_UUID c None = Ok hap
    /\ hap_value hap = Some (VNum (Fin y))
    /\ within (not_null (minValue (props c))) (not_null (maxValue (props c)))
         (Fin y) = true
    /\ hap_minValue hap = not_null (minValue (props c))
    /\ hap_maxValue hap = not_null (maxValue (props c)).
Proof.
  destruct (clamp_within x _ _ Hlo Hhi Hordered) as [y [Hclamp Hin]].
  assert (Hp : projected_value c = VNum (Fin y)).
  { unfold projected_value. rewrite Hformat, Hstep, Hpolled, Hvalue.
    unfold clamp_high, clamp_low in Hclamp.
    destruct (not_null (minValue (props c))) as [lo |];
      destruct (not_null (maxValue (props c))) as [hi |];
      rewrite Hclamp; reflexivity. }
  unfold toHAP. rewrite Htype, Hp, Hformat, Hread. cbn [bind negb].
  eexists. exists y. split; [reflexivity |]. repeat split. exact Hin.
Qed.

Lemma toHAP_float_value_witness :
  exists hap y,
    toHAP keep_uuid []
      (sample (sample_props FLOAT OUndefined (ONum (num 0)) OUndefined)
         (VNum (num 5)))
      None = Ok hap
    /\ hap_value hap = Some (VNum (Fin y))
    /\ within None (Some (num 0)) (Fin y) = true.
Proof.
  destruct (toHAP_float_value_within_declared_bounds keep_uuid []
              (sample (sample_props FLOAT OUndefined (ONum (num 0)) OUndefined)
                 (VNum (num 5)))
              (lit "00000025-0000-1000-8000-0026BB765291") (mkDec 5 0))
    as [hap [y [H1 [H2 [H3 _]]]]]; try reflexivity; try exact I.
  exists hap, y. repeat split; assumption.
Defined.

(** ** getDefaultValue, updateValue and the completion of a "get" request *)

Lemma or_default_not_nullish (c : Characteristic) (v w : Value) :
  format (props c) <> Some DATA ->
  format (props c) <> Some TLV8 ->
  or_default c v = Some w ->
  is_nullish w = false.
Proof.
  intros Hdata Htlv. unfold or_default.
  destruct (is_nullish v) eqn:Hv.
  - unfold getDefaultValue.
    destruct (format (props c)) as [[] |]; cbn [storable];
      try discriminate; try congruence;
      try (intros H; injection H as H; subst w; try reflexivity;
           destruct (minValue (props c)) as [| | n]; try reflexivity;
           destruct (Num.truthy n); reflexivity).
  - intros H. injection H as H. subst w. exact Hv.
Qed.

Lemma or_default_stores (c : Characteristic) (v : Value) :
  primitive_default c -> exists w, or_default c v = Some w.
Proof.
  intros [Hd Ha]. unfold or_default.
  destruct (is_nullish v); [| eexists; reflexivity].
  unfold getDefaultValue.
  destruct (format (props c)) as [[] |]; cbn [storable];
    try (eexists; reflexivity); congruence.
Qed.

Lemma or_default_ignores_status (c : Characteristic) (s : Z) (v : Value) :
  or_default (with_status c s) v = or_default c v.
Proof. reflexivity. Qed.

(** X20.  [updateValue] on a characteristic whose format is neither the
    dictionary nor the array one: the status is reset to success and the
    constraints are kept, also when [validateValue] throws, in which case
    the cached value is kept too; otherwise the callback runs before the
    change event, the event carries the value cached before and the one
    stored, and the stored value is neither [null] nor [undefined] unless
    the format is the data or the TLV8 one. *)
Theorem updateValue_outcomes
  (c : Characteristic) (v : Value) (callback : bool) (context : Context)
  (Hformat : primitive_default c) :
  exists c' r,
    updateValue c v callback context = Some (c', r)
    /\ status c' = Status.SUCCESS
    /\ props c' = props c
    /\ match r with
       | Throw _ => value c' = value c
       | Ok effects =>
           effects
           = (if callback then [CALLBACK] else [])
             ++ (if eventOnlyCharacteristic c
                    || negb (strict_equal (value c) (value c'))
                 then [EMIT (CHANGE (value c) (value c') context)] else [])
           /\ (format (props c) <> Some DATA ->
               format (props c) <> Some TLV8 ->
               is_nullish (value c') = false)
       end.
Proof.
  unfold updateValue. cbv zeta. rewrite validateValue_ignores_status.
  destruct (validateValue c v) as [v' | e].
  - rewrite or_default_ignores_status.
    destruct (or_default_stores c v' Hformat) as [w Hw]. rewrite Hw.
    eexists. eexists. split; [reflexivity |].
    cbn [status props value with_value with_status].
    repeat split.
    intros Hdata Htlv. exact (or_default_not_nullish c v' w Hdata Htlv Hw).
  - eexists. eexists. split; [reflexivity |]. repeat split.
Qed.

Lemma updateValue_outcomes_witness :
  primitive_default five_to_ten
  /\ exists c' effects,
       updateValue five_to_ten (VNum (num 12)) true 2%nat = Some (c', Ok effects)
       /\ is_nullish (value c') = false.
Proof.
  assert (H : primitive_default five_to_ten)
    by (split; discriminate).
  split; [exact H |].
  destruct (updateValue_outcomes five_to_ten (VNum (num 12)) true 2%nat H)
    as [c' [r [Hr [_ [_ Hcase]]]]].
  destruct r as [effects | e].
  - exists c', effects. split; [exact Hr |].
    apply Hcase; discriminate.
  - vm_compute in Hr. discriminate Hr.
Defined.

(** X21.  [updateValue(null)] on a numeric format never throws.  It keeps
    a cached value that is neither [null] nor [undefined]; on a
    characteristic that holds [null] it stores the declared minimum, or 0
    when the minimum is left out, [null], 0 or NaN, whatever the maximum,
    and raises the change event after the callback. *)
Theorem updateValue_null_on_numeric_format
  (c : Characteristic) (r : Locals) (callback : bool) (context : Context)
  (Hfamily : family_of c = Some r) :
  (is_nullish (value c) = false ->
   exists effects,
     updateValue c VNull callback context
     = Some (with_value (with_status c Status.SUCCESS) (value c), Ok effects))
  /\ (value c = VNull ->
      updateValue c VNull callback context
      = Some (with_value (with_status c Status.SUCCESS)
                (VNum (match declared (minValue (props c)) with
                       | Some m => m
                       | None => of_Z 0
                       end)),
              Ok ((if callback then [CALLBACK] else [])
                  ++ [EMIT (CHANGE VNull
                              (VNum (match declared (minValue (props c)) with
                                     | Some m => m
                                     | None => of_Z 0
                                     end))
                              context)]))).
Proof.
  assert (Hv : validateValue c VNull = Ok (value c)).
  { destruct (family_of_switch c r Hfamily VNull) as [Hs Hn].
    unfold validateValue. rewrite Hs, Hn. reflexivity. }
  destruct (numeric_format_family c r Hfamily) as [f [Hf Hnum]].
  unfold updateValue. cbv zeta.
  rewrite validateValue_ignores_status, Hv, or_default_ignores_status.
  unfold or_default. split.
  - intros Hc. rewrite Hc. eexists. reflexivity.
  - intros Hc. rewrite Hc. cbn [is_nullish].
    assert (Hd : storable (getDefaultValue c)
                 = Some (VNum (match declared (minValue (props c)) with
                               | Some m => m
                               | None => of_Z 0
                               end))).
    { unfold getDefaultValue, declared. rewrite Hf.
      destruct f; try discriminate Hnum; cbn [storable];
        destruct (minValue (props c)) as [| | n]; try reflexivity;
        destruct n as [| neg | d]; try reflexivity;
        destruct (Num.truthy (Fin d)); reflexivity. }
    rewrite Hd.
    unfold change_due.
    cbn [value with_value with_status eventOnlyCharacteristic strict_equal
         negb].
    rewrite Hc. cbn [strict_equal negb].
    destruct (eventOnlyCharacteristic c); reflexivity.
Qed.

Lemma updateValue_null_witness :
  family_of five_to_ten
  = Some (mkLocals true (Some (num 0)) (Some (num 255)) (Some (num 1)))
  /\ value five_to_ten = VNull
  /\ updateValue five_to_ten VNull false 2%nat
     = Some (with_value (with_status five_to_ten Status.SUCCESS) (VNum (num 5)),
             Ok [EMIT (CHANGE VNull (VNum (num 5)) 2%nat)]).
Proof.
  split; [reflexivity |]. split; [reflexivity |].
  apply (updateValue_null_on_numeric_format five_to_ten _ false 2%nat eq_refl).
  reflexivity.
Defined.

(** X22.  A "get" request completed without a failure, on a format that is
    neither the dictionary nor the array one and with a value that
    [validateValue] accepts: the promise resolves with exactly the value
    that is cached afterwards, the status is success, a change event is
    raised only when that value differs from the one cached before, also
    on an event-only characteristic, and the value is neither [null] nor
    [undefined] unless the format is the data or the TLV8 one. *)
Theorem get_completion_resolves_with_cached_value
  (context : Context) (c : Characteristic) (st : CallbackStatus)
  (v v' : Value)
  (Hst : reported_failure st = None)
  (Hformat : primitive_default c)
  (Hv : validateValue c v = Ok v') :
  exists c' events,
    get_completion context c st v
    = Some (c', Ok (events, Resolved (value c')))
    /\ status c' = Status.SUCCESS
    /\ events = (if strict_equal (value c) (value c') then []
                 else [CHANGE (value c) (value c') context])
    /\ (format (props c) <> Some DATA ->
        format (props c) <> Some TLV8 ->
        is_nullish (value c') = false).
Proof.
  unfold get_completion. rewrite Hst. cbv zeta.
  rewrite validateValue_ignores_status, Hv, or_default_ignores_status.
  destruct (or_default_stores c v' Hformat) as [w Hw]. rewrite Hw.
  exists (with_value (with_status c Status.SUCCESS) w).
  eexists. split; [reflexivity |].
  cbn [status props value with_value with_status].
  split; [reflexivity |]. split.
  - destruct (strict_equal (value c) w); reflexivity.
  - intros Hdata Htlv. exact (or_default_not_nullish c v' w Hdata Htlv Hw).
Qed.

Lemma get_completion_witness :
  reported_failure (StatusCode 0) = None
  /\ validateValue (fresh_of BOOL) VUndefined = Ok (VBool false)
  /\ exists c' events,
       get_completion 2%nat (fresh_of BOOL) (StatusCode 0) VUndefined
       = Some (c', Ok (events, Resolved (value c')))
       /\ status c' = Status.SUCCESS.
Proof.
  split; [reflexivity |]. split; [reflexivity |].
  destruct (get_completion_resolves_with_cached_value 2%nat (fresh_of BOOL)
              (StatusCode 0) VUndefined (VBool false) eq_refl)
    as [c' [events [H1 [H2 _]]]].
  - split; discriminate.
  - reflexivity.
  - exists c', events. split; assumption.
Defined.

(** X23.  Without a "set" listener, and when [validateValue] gives a value
    that is neither [null] nor [undefined], [updateValue] without callback
    and [handleSetRequest] leave the same characteristic and raise the
    same events. *)
Theorem updateValue_agrees_with_direct_set
  (c : Characteristic) (v v' : Value) (session : Session) (context : Context)
  (Hv : validateValue c v = Ok v')
  (Hdefined : is_nullish v' = false)
  (Hset : setListeners c = O) :
  exists events,
    handleSetRequest c v session context
    = (fst (handleSetRequest c v session context),
       Ok (events, Resolved None, None))
    /\ updateValue c v false context
       = Some (fst (handleSetRequest c v session context),
               Ok (map EMIT events)).
Proof.
  rewrite (handleSetRequest_direct c v v' session context Hv Hset).
  cbn [fst]. eexists. split; [reflexivity |].
  unfold updateValue. cbv zeta.
  rewrite validateValue_ignores_status, Hv, or_default_ignores_status.
  unfold or_default. rewrite Hdefined. unfold change_due.
  cbn [value with_value with_status eventOnlyCharacteristic app].
  destruct (eventOnlyCharacteristic c || negb (strict_equal (value c) v'));
    reflexivity.
Qed.

Lemma updateValue_agrees_witness :
  validateValue five_to_ten (VStr (lit "7.9")) = Ok (VNum (num 7))
  /\ exists events,
       handleSetRequest five_to_ten (VStr (lit "7.9")) 1%nat 2%nat
       = (fst (handleSetRequest five_to_ten (VStr (lit "7.9")) 1%nat 2%nat),
          Ok (events, Resolved None, None))
       /\ updateValue five_to_ten (VStr (lit "7.9")) false 2%nat
          = Some (fst (handleSetRequest five_to_ten (VStr (lit "7.9"))
                         1%nat 2%nat),
                  Ok (map EMIT events)).
Proof.
  split; [reflexivity |].
  apply (updateValue_agrees_with_direct_set five_to_ten (VStr (lit "7.9"))
           (VNum (num 7)) 1%nat 2%nat); reflexivity.
Defined.

(** ** toHAP: the float format with a step *)




